(** * The CAPTCHA orchestrator of suno-api: [getCaptchaToken]

    A shallow embedding of the browser-driving module (the challenge
    loop, the solver retry, the pointer replay, the submit step and the
    request interceptor) together with the properties of its behaviour.

    The module is asynchronous JavaScript.  It is embedded as follows.
    - Every call that leaves the module (a Playwright call, a 2Captcha
      call, a timer) is recorded as an [Event] in the [trace] of the
      [World].
    - Every [await] is a suspension point: the clock [now] advances by
      one and, when the route handler is installed, a request matching
      the route during that suspension runs the handler to completion
      (the handler has no [await] of its own).
    - What the outside world answers is given by an [Env]: one oracle per
      kind of call, indexed by the clock.
    - The main flow is written in an exception-and-state monad [M], so
      that the definitions can be read side by side with the source.
    - A promise that is started and not awaited (the first click on the
      Create button, the click on the submit button, [badReport], the
      [close] of the browser) cannot fail the flow that starts it.

    Left out: the log lines, the launch arguments of the browser and the
    dynamic imports of [fs/promises] and [path], which are taken to
    succeed.  The context comes from [browser.newContext], so that
    [browser.browser()] is the launched browser and [?.close()] is a
    call.  The callback [onNewToken] is taken to return. *)

From Stdlib Require Import ZArith QArith String Ascii List Lia.
From stdpp Require Import base option list strings gmap.
Import ListNotations.

Local Open Scope string_scope.
Local Open Scope nat_scope.
Local Open Scope list_scope.

(** ** JavaScript strings *)

Module JsString.

(** [c] with an ASCII capital replaced by its small letter. *)
Definition lower_ascii (c : ascii) : ascii :=
  let n := nat_of_ascii c in
  if (65 <=? n) && (n <=? 90) then ascii_of_nat (n + 32) else c.

(** [s.toLowerCase()], on the ASCII range. *)
Fixpoint toLowerCase (s : string) : string :=
  match s with
  | EmptyString => EmptyString
  | String c s' => String (lower_ascii c) (toLowerCase s')
  end.

(** [s.includes(sub)]. *)
Fixpoint includes (s sub : string) : bool :=
  String.prefix sub s ||
  match s with
  | EmptyString => false
  | String _ s' => includes s' sub
  end.

(** The scan of [s.split(sep)] for a non-empty [sep]: [cur] is the piece
    being read, [skip] the number of characters of an occurrence of
    [sep] still to be passed over. *)
Fixpoint split_scan (sep : string) (skip : nat) (cur s : string) : list string :=
  match s with
  | EmptyString => [cur]
  | String c s' =>
      match skip with
      | S k => split_scan sep k cur s'
      | O =>
          if String.prefix sep s
          then cur :: split_scan sep (String.length sep - 1) EmptyString s'
          else split_scan sep 0 (cur ++ String c EmptyString)%string s'
      end
  end.

Fixpoint chars (s : string) : list string :=
  match s with
  | EmptyString => []
  | String c s' => String c EmptyString :: chars s'
  end.

(** [s.split(sep)]. *)
Definition split (s sep : string) : list string :=
  match sep with
  | EmptyString => chars s
  | _ => split_scan sep 0 EmptyString s
  end.

(** [a.pop()] as a value: the last element, [None] for [undefined]. *)
Definition pop (a : list string) : option string := last a.

(** Truthiness of a string-or-undefined value. *)
Definition truthy (v : option string) : bool :=
  match v with
  | Some (String _ _) => true
  | _ => false
  end.

End JsString.

Arguments JsString.toLowerCase : simpl never.
Arguments JsString.includes : simpl never.
Arguments JsString.split : simpl never.
Arguments JsString.pop : simpl never.
Arguments JsString.truthy : simpl never.

(** ** JavaScript numbers

    Coordinates are JavaScript numbers; the module only adds them and
    converts the solver's answers with unary [+].  The embedding is
    parametric in the carrier. *)

Class JSNumber (num : Type) := {
  num_zero : num;
  num_add : num -> num -> num;
  to_number : string -> num;
}.

(** ** Data *)

(** A thrown value; the module inspects nothing but [e.message]. *)
Record Err := Error { message : string }.

Inductive Outcome (A : Type) :=
| Return (a : A)
| Throw (e : Err).
Arguments Return {A} a.
Arguments Throw {A} e.

Inductive Promise (A : Type) :=
| Pending
| Fulfilled (a : A)
| Rejected (e : Err).
Arguments Pending {A}.
Arguments Fulfilled {A} a.
Arguments Rejected {A} e.

(** The locators the module builds. *)
Inductive Locator :=
| CloseLabel          (* page.getByLabel('Close') *)
| Textarea            (* page.locator('.custom-textarea') *)
| CreateButton        (* page.locator('button[aria-label="Create"]').locator('div.flex') *)
| ChallengeContainer  (* frame.locator('.challenge-container') *)
| PromptText          (* challenge.locator('.prompt-text').first() *)
| SubmitButton.       (* frame.locator('.button-submit') *)

(** What [click] is given: the page ([isPage(target)]) or a locator. *)
Inductive Target :=
| TPage
| TLocator (l : Locator).

(** An outgoing request as the route handler reads it: [headers()] has
    lower-case names; [postDataJSON()] is [null] without a body, is the
    parsed value for a JSON body (the entries for a form-encoded one),
    seen here through its fields, and throws on any other body, whose
    text [raw] is part of the message. *)
Inductive PostData :=
| NoPostData
| NotJSON (raw : string)
| JObject (fields : gmap string string).

Record Request := {
  headers : gmap string string;
  postData : PostData;
}.

Record Cookie := {
  cookie_name : string;
  cookie_value : string;
  cookie_domain : string;
  cookie_path : string;
  cookie_sameSite : string;
}.

(** [paramsCoordinates] of the solver client. *)
Record Payload := {
  body : string;
  lang : option string;
  textinstructions : option string;
  imginstructions : option string;
}.

(** A point of a solution; the solver answers with strings. *)
Record Point := { px : string; py : string }.

Record Captcha := { data : list Point; id : string }.

(** The arguments of [getCaptchaToken] and the environment variables it
    reads. *)
Record Config := {
  userAgent : string;
  currentToken : string;
  cookies : list (string * option string);
  ghostCursorEnabled : bool;      (* yn(BROWSER_GHOST_CURSOR) *)
  BROWSER_LOCALE : option string;
}.

Section Model.

Context {num : Type} `{!JSNumber num}.

Record Box := { box_x : num; box_y : num; box_width : num; box_height : num }.

(** The target handed to the humanized cursor. *)
Record Pos := { pos_x : num; pos_y : num; pos_size : option (num * num) }.

Record Position := { position_x : num; position_y : num }.

(** *** Events: the calls that leave the module *)

Inductive Event :=
(* session set-up *)
| ELaunch
| ENewContext (ua : string) (locale : option string)
| EAddCookies (cs : list Cookie)
| ENewPage
| EGoto
| EWaitForResponse
| ECreateCursor
| EPressSequentially (text : string)
(* challenge loop *)
| EWaitForRequests
| EInnerText
| EScreenshot
| EReadFile
| ECoordinates (p : Payload)
| EBadReport (solution : string)
| EBoundingBox (l : Locator)
| EMouseMove (x y : num) (steps : option nat)
| EMouseDown
| EMouseUp
| ESleep (seconds : Q)
| ECursorClick (target : option Pos)
| EMouseClick (x y : num)
| ELocatorClick (l : Locator) (timeout : option nat) (force : bool) (position : option Position)
| EUnhandledRejection (e : Err)
(* route handler and teardown *)
| ERouteAbort
| EBrowserClose
| EControllerAbort (fired : bool)
| EOnNewToken (token : string).

(** *** The world *)

Record World := {
  now : nat;                          (* suspension points passed *)
  trace : list Event;                 (* oldest first *)
  aborted : bool;                     (* controller.signal.aborted *)
  routing : bool;                     (* page.route handler installed *)
  returned : Promise (option string); (* what the caller awaits *)
  loopPromise : Promise unit;         (* the detached promise of the loop *)
}.

Definition initial : World :=
  {| now := 0; trace := []; aborted := false; routing := false;
     returned := Pending; loopPromise := Pending |}.

Definition emit (e : Event) (w : World) : World :=
  {| now := now w; trace := trace w ++ [e]; aborted := aborted w;
     routing := routing w; returned := returned w; loopPromise := loopPromise w |}.

Definition advance (w : World) : World :=
  {| now := S (now w); trace := trace w; aborted := aborted w;
     routing := routing w; returned := returned w; loopPromise := loopPromise w |}.

Definition set_aborted (w : World) : World :=
  {| now := now w; trace := trace w; aborted := true;
     routing := routing w; returned := returned w; loopPromise := loopPromise w |}.

Definition install_route (w : World) : World :=
  {| now := now w; trace := trace w; aborted := aborted w;
     routing := true; returned := returned w; loopPromise := loopPromise w |}.

(** Settling a promise that is already settled does nothing. *)
Definition settle {A} (p q : Promise A) : Promise A :=
  match p with Pending => q | _ => p end.

Definition settle_returned (q : Promise (option string)) (w : World) : World :=
  {| now := now w; trace := trace w; aborted := aborted w;
     routing := routing w; returned := settle (returned w) q;
     loopPromise := loopPromise w |}.

Definition settle_loop (q : Promise unit) (w : World) : World :=
  {| now := now w; trace := trace w; aborted := aborted w;
     routing := routing w; returned := returned w;
     loopPromise := settle (loopPromise w) q |}.

(** *** The environment *)

Record Env := {
  (* the request, if any, that matches '**/api/generate/v2/**' while the
     main flow is suspended at clock [t] *)
  env_route : nat -> option Request;
  (* waitForRequests(page, signal) of '@/lib/utils'; the flag is the
     state of the signal when the wait settles *)
  env_waitForRequests : nat -> bool -> Outcome unit;
  env_innerText : nat -> Outcome string;
  env_screenshot : nat -> Outcome string;
  env_readFile : nat -> Outcome string;
  env_coordinates : nat -> Payload -> Outcome Captcha;
  env_boundingBox : nat -> Locator -> Outcome (option Box);
  (* every other awaited call: it fulfils with nothing of interest *)
  env_action : nat -> Event -> Outcome unit;
}.

End Model.

Arguments Box : clear implicits.
Arguments Pos : clear implicits.
Arguments Position : clear implicits.
Arguments Event : clear implicits.
Arguments World : clear implicits.
Arguments Env : clear implicits.

(** ** The monad of the main flow *)

Definition M (num A : Type) : Type := World num -> Outcome A * World num.

Definition ret {num A} (a : A) : M num A := fun w => (Return a, w).

Definition throw {num A} (e : Err) : M num A := fun w => (Throw e, w).

Definition bind {num A B} (m : M num A) (k : A -> M num B) : M num B :=
  fun w =>
    match m w with
    | (Return a, w') => k a w'
    | (Throw e, w') => (Throw e, w')
    end.

(** [try { m } catch (e) { h e }]. *)
Definition try_catch {num A} (m : M num A) (h : Err -> M num A) : M num A :=
  fun w =>
    match m w with
    | (Return a, w') => (Return a, w')
    | (Throw e, w') => h e w'
    end.

(** A promise that is started and neither awaited nor returned: the flow
    that starts it goes on whatever becomes of it, and its rejection has
    no handler.  The embedding runs it to its end where it is started;
    in the code its first call is made there, and what follows (a
    rejection handler and the calls it makes) runs at a later suspension
    of the flow that started it.  What is stated of such a promise is
    therefore what it calls and how often, not where in the trace. *)
Definition detach {num} (m : M num unit) : M num unit :=
  fun w =>
    match m w with
    | (Return _, w') => (Return tt, w')
    | (Throw e, w') => (Return tt, emit (EUnhandledRejection e) w')
    end.

Declare Scope flow_scope.
Delimit Scope flow_scope with flow.
Notation "x <- m ;; k" := (bind m (fun x => k))
  (at level 100, m at next level, right associativity) : flow_scope.
Notation "m ;; k" := (bind m (fun _ => k))
  (at level 100, right associativity) : flow_scope.
Local Open Scope flow_scope.

Section Program.

Context {num : Type} `{!JSNumber num}.
Variable env : Env num.
Variable cfg : Config.

Local Abbreviation World := (World num).
Local Abbreviation Event := (Event num).
Local Abbreviation M := (M num).

(** *** The route handler (source lines 207-222) *)

(** [controller.abort()]: the signal changes state on the first call
    only. *)
Definition controller_abort (w : World) : World :=
  if aborted w
  then emit (EControllerAbort false) w
  else set_aborted (emit (EControllerAbort true) w).

Definition TypeError_split : Err :=
  Error "Cannot read properties of undefined (reading 'split')".
Definition TypeError_token : Err :=
  Error "Cannot read properties of null (reading 'token')".
Definition Error_postData (raw : string) : Err :=
  Error ("POST data is not a valid JSON object: " ++ raw)%string.

(** [request.postDataJSON().token] *)
Definition postDataJSON_token (r : Request) : Outcome (option string) :=
  match postData r with
  | NoPostData => Throw TypeError_token
  | NotJSON raw => Throw (Error_postData raw)
  | JObject fields => Return (fields !! "token")
  end.

Definition handler (request : Request) (w : World) : World :=
  let w := emit ERouteAbort w in                       (* route.abort() *)
  let w := emit EBrowserClose w in                     (* browser.browser()?.close() *)
  let w := controller_abort w in                       (* controller.abort() *)
  match headers request !! "authorization" with
  | None => settle_returned (Rejected TypeError_split) w
  | Some authorization =>
      let newAuthToken := JsString.pop (JsString.split authorization "Bearer ") in
      let w :=
        match newAuthToken with
        | Some token => if JsString.truthy newAuthToken then emit (EOnNewToken token) w else w
        | None => w
        end in
      match postDataJSON_token request with
      | Return token => settle_returned (Fulfilled token) w
      | Throw err => settle_returned (Rejected err) w
      end
  end.

(** *** Suspension points *)

(** One suspension of the main flow: a matching request, if the handler
    is installed, is handled; the clock advances. *)
Definition tick (w : World) : World :=
  advance
    (if routing w
     then match env_route env (now w) with
          | Some request => handler request w
          | None => w
          end
     else w).

(** [await] of a call that fulfils with nothing of interest. *)
Definition call (c : Event) : M unit :=
  fun w => (env_action env (now w) c, tick (emit c w)).

Definition waitForRequests : M unit :=
  fun w =>
    let w' := tick (emit EWaitForRequests w) in
    (env_waitForRequests env (now w) (aborted w'), w').

Definition innerText : M string :=
  fun w => (env_innerText env (now w), tick (emit EInnerText w)).

Definition screenshot : M string :=
  fun w => (env_screenshot env (now w), tick (emit EScreenshot w)).

Definition readFile : M string :=
  fun w => (env_readFile env (now w), tick (emit EReadFile w)).

Definition coordinates (p : Payload) : M Captcha :=
  fun w => (env_coordinates env (now w) p, tick (emit (ECoordinates p) w)).

Definition boundingBox (l : Locator) : M (option (Box num)) :=
  fun w => (env_boundingBox env (now w) l, tick (emit (EBoundingBox l) w)).

(** A call whose promise is dropped. *)
Definition fire (c : Event) : M unit := fun w => (Return tt, emit c w).

(** *** [click] (source lines 14-34) *)

Definition TypeError_x : Err :=
  Error "Cannot read properties of null (reading 'x')".

Definition click (cursor : bool) (ghostCursorEnabled : bool)
    (target : Target) (position : option (Position num)) : M unit :=
  if ghostCursorEnabled && cursor then
    pos <- (match target with
            | TPage => ret (Some {| pos_x := num_zero; pos_y := num_zero; pos_size := None |})
            | TLocator l =>
                b <- boundingBox l ;;
                ret (option_map
                       (fun b => {| pos_x := box_x b; pos_y := box_y b;
                                    pos_size := Some (box_width b, box_height b) |}) b)
            end) ;;
    pos <- (match position with
            | Some position =>
                match pos with
                | Some pos =>
                    ret (Some {| pos_x := num_add (pos_x pos) (position_x position);
                                 pos_y := num_add (pos_y pos) (position_y position);
                                 pos_size := None |})
                | None => throw TypeError_x
                end
            | None => ret pos
            end) ;;
    call (ECursorClick pos)
  else
    match target with
    | TPage =>
        call (EMouseClick (from_option position_x num_zero position)
                          (from_option position_y num_zero position))
    | TLocator l => call (ELocatorClick l None true position)
    end.

(** *** Session set-up (source lines 54-94 and 106-127) *)

Definition suno_cookie (name value : string) : Cookie :=
  {| cookie_name := name; cookie_value := value; cookie_domain := ".suno.com";
     cookie_path := "/"; cookie_sameSite := "Lax" |}.

Definition launchBrowser : M unit :=
  call ELaunch ;;
  call (ENewContext (userAgent cfg) (BROWSER_LOCALE cfg)) ;;
  call (EAddCookies
          (suno_cookie "__session" (currentToken cfg)
           :: map (fun kv => suno_cookie (fst kv) (default "undefined" (snd kv)))
                  (cookies cfg))).

(** Lines 106-127.  The last click, on the Create button, is not
    awaited.  In the code nothing suspends between that click and the
    installation of the route (line 207), so the route is installed while
    the click is in flight; the embedding lets the click come to its end
    here, before the route is installed, and the statements on whole runs
    count the matching requests from the end of the set-up on. *)
Definition setup : M unit :=
  launchBrowser ;;
  call ENewPage ;;
  call EGoto ;;
  call EWaitForResponse ;;
  (if ghostCursorEnabled cfg then call ECreateCursor else ret tt) ;;
  try_catch (call (ELocatorClick CloseLabel (Some 2000) false None)) (fun _ => ret tt) ;;
  click (ghostCursorEnabled cfg) (ghostCursorEnabled cfg) (TLocator Textarea) None ;;
  call (EPressSequentially "Lorem ipsum") ;;
  detach (click (ghostCursorEnabled cfg) (ghostCursorEnabled cfg) (TLocator CreateButton) None).

(** *** The challenge loop (source lines 131-205) *)

(** One pass of the body of [for (let j = 0; j < 3; j++)]: lines
    145-154. *)
Definition attempt (drag : bool) : M Captcha :=
  shot <- screenshot ;;
  let payload :=
    {| body := shot; lang := BROWSER_LOCALE cfg;
       textinstructions := None; imginstructions := None |} in
  payload <- (if drag then
                img <- readFile ;;
                ret {| body := body payload; lang := lang payload;
                       textinstructions :=
                         Some "CLICK on the shapes at their edge or center as shown above—please be precise!";
                       imginstructions := Some img |}
              else ret payload) ;;
  coordinates payload.

(** Lines 143-163.  [fuel] bounds the unfolding of the [for]; the result
    is [None] when the loop is left with [captcha] still undefined. *)
Fixpoint solve_loop (fuel j : nat) (drag : bool) : M (option Captcha) :=
  match fuel with
  | O => ret None
  | S fuel' =>
      if j <? 3 then
        try_catch
          (captcha <- attempt drag ;; ret (Some captcha))      (* break *)
          (fun err =>
             if negb (j =? 2)
             then solve_loop fuel' (j + 1) drag                (* 'Retrying...' *)
             else throw err)
      else ret None
  end.

Definition solve (drag : bool) : M (option Captcha) := solve_loop 4 0 drag.

Definition TypeError_data : Err :=
  Error "Cannot read properties of undefined (reading 'data')".
Definition TypeError_point : Err :=
  Error "Cannot read properties of undefined (reading 'x')".
Definition Error_boundingBox : Err :=
  Error ".challenge-container boundingBox is null!".

(** [captcha.data], [captcha.id] on a value that may be undefined. *)
Definition defined (captcha : option Captcha) : M Captcha :=
  match captcha with
  | Some c => ret c
  | None => throw TypeError_data
  end.

(** The pointer calls of one drag, lines 177-181. *)
Definition drag_start (challengeBox : Box num) (data1 : Point) : Event :=
  EMouseMove (num_add (box_x challengeBox) (to_number (px data1)))
             (num_add (box_y challengeBox) (to_number (py data1))) None.

Definition drag_end (challengeBox : Box num) (data2 : Point) : Event :=
  EMouseMove (num_add (box_x challengeBox) (to_number (px data2)))
             (num_add (box_y challengeBox) (to_number (py data2))) (Some 30).

(** Lines 174-182: [for (let i = 0; i < captcha.data.length; i += 2)],
    reading [data[i]] and [data[i + 1]]. *)
Fixpoint drags (challengeBox : Box num) (data : list Point) : M unit :=
  match data with
  | [] => ret tt
  | data1 :: rest =>
      call (drag_start challengeBox data1) ;;
      call EMouseDown ;;
      call (ESleep (11 # 10)) ;;
      match rest with
      | data2 :: rest' =>
          call (drag_end challengeBox data2) ;;
          call EMouseUp ;;
          drags challengeBox rest'
      | [] => throw TypeError_point
      end
  end.

(** Lines 185-187. *)
Fixpoint clicks (data : list Point) : M unit :=
  match data with
  | [] => ret tt
  | d :: rest =>
      click (ghostCursorEnabled cfg) (ghostCursorEnabled cfg)
            (TLocator ChallengeContainer)
            (Some {| position_x := to_number (px d); position_y := to_number (py d) |}) ;;
      clicks rest
  end.

(** How the body of the [while] goes on after lines 164-188. *)
Inductive Next :=
| Continue (wait : bool)   (* [continue] *)
| Submit (wait : bool).    (* fall through to line 189 *)

(** Lines 164-188. *)
Definition act (wait drag : bool) (captcha : option Captcha) : M Next :=
  if drag then
    challengeBox <- boundingBox ChallengeContainer ;;
    match challengeBox with
    | None => throw Error_boundingBox
    | Some challengeBox =>
        captcha <- defined captcha ;;
        if Nat.odd (length (data captcha)) then
          fire (EBadReport (id captcha)) ;;
          ret (Continue false)
        else
          drags challengeBox (data captcha) ;;
          ret (Submit true)
    end
  else
    captcha <- defined captcha ;;
    clicks (data captcha) ;;
    ret (Submit wait).

(** Lines 189-194: the click on the submit button is started with a
    rejection handler and not awaited. *)
Definition submit : M unit :=
  detach
    (try_catch
       (click (ghostCursorEnabled cfg) (ghostCursorEnabled cfg) (TLocator SubmitButton) None)
       (fun e =>
          if JsString.includes (message e) "viewport"
          then detach (click (ghostCursorEnabled cfg) (ghostCursorEnabled cfg)
                             (TLocator CreateButton) None)
          else throw e)).

(** Lines 139-163: the wait, the classification of the challenge and the
    request for a solution. *)
Definition request_solution (wait : bool) : M (bool * option Captcha) :=
  (if wait then waitForRequests else ret tt) ;;
  text <- innerText ;;
  let drag := JsString.includes (JsString.toLowerCase text) "drag" in
  captcha <- solve drag ;;
  ret (drag, captcha).

(** The body of [while (true)], lines 139-194; the result is the value of
    [wait] for the next pass. *)
Definition iteration (wait : bool) : M bool :=
  challenge <- request_solution wait ;;
  next <- act wait (fst challenge) (snd challenge) ;;
  match next with
  | Continue wait' => ret wait'
  | Submit wait' => submit ;; ret wait'
  end.

(** [while (true)]: it is left by an exception only.  [None] after
    [fuel] passes means that the loop is still going. *)
Fixpoint loop (fuel : nat) (wait : bool) (w : World) : option Err * World :=
  match fuel with
  | O => (None, w)
  | S fuel' =>
      match iteration wait w with
      | (Return wait', w') => loop fuel' wait' w'
      | (Throw e, w') => (Some e, w')
      end
  end.

(** Line 197. *)
Definition is_cancellation (e : Err) : bool :=
  JsString.includes (message e) "been closed" || String.eqb (message e) "AbortError".

(** Lines 196-205: the [catch] of the executor and the handler chained to
    the promise, whose own result is dropped. *)
Definition finish (e : Err) (w : World) : World :=
  if is_cancellation e then settle_loop (Fulfilled tt) w
  else
    let w := settle_loop (Rejected e) w in
    let w := emit EBrowserClose w in           (* browser.browser()?.close() *)
    emit (EUnhandledRejection e) w.            (* throw e *)

Definition challengeLoop (fuel : nat) (w : World) : World :=
  match loop fuel true w with
  | (None, w') => w'
  | (Some e, w') => finish e w'
  end.

(** Turns of the event loop in which the main flow does nothing. *)
Fixpoint idle (n : nat) (w : World) : World :=
  match n with
  | O => w
  | S n' => idle n' (tick w)
  end.

(** *** [getCaptchaToken] (source lines 100-224)

    The run is observed for [fuel] passes of the loop and [turns] further
    turns of the event loop. *)
Definition getCaptchaToken (fuel turns : nat) : World :=
  match setup initial with
  | (Throw e, w) => settle_returned (Rejected e) w
  | (Return _, w) => idle turns (challengeLoop fuel (install_route w))
  end.

End Program.

Arguments tick : simpl never.
Arguments handler : simpl never.

(** ** Integer coordinates, for concrete runs

    The points of the concrete runs are plain strings of decimal digits,
    on which [digits_value 0] is what unary [+] gives; on other strings
    ([+] reads signs, fractions, exponents and blanks, and can give NaN)
    it is not meant to be used. *)

Fixpoint digits_value (acc : Z) (s : string) : Z :=
  match s with
  | EmptyString => acc
  | String c s' =>
      let n := nat_of_ascii c in
      if (48 <=? n) && (n <=? 57)
      then digits_value (10 * acc + Z.of_nat (n - 48)) s'
      else acc
  end.

#[export] Instance JSNumber_Z : JSNumber Z :=
  {| num_zero := 0%Z; num_add := Z.add; to_number := digits_value 0 |}.

(** ** Observations on runs *)

Section Observations.

Context {num : Type} `{!JSNumber num}.
Variable env : Env num.

Local Abbreviation World := (World num).
Local Abbreviation Event := (Event num).

(** The calls made by the route handler (and the teardown, which the
    loop's rejection handler makes too). *)
Definition handler_event (e : Event) : bool :=
  match e with
  | ERouteAbort | EBrowserClose | EControllerAbort _ | EOnNewToken _ => true
  | _ => false
  end.

(** The calls of the main flow. *)
Definition flow_event (e : Event) : bool := negb (handler_event e).

Definition is_wait (e : Event) : bool :=
  match e with EWaitForRequests => true | _ => false end.

(** The calls of a pass of the loop other than the network-quiescence
    wait. *)
Definition body_event (e : Event) : bool := flow_event e && negb (is_wait e).

(** Pointer input: clicks, moves, presses and releases. *)
Definition pointer_action (e : Event) : bool :=
  match e with
  | EMouseMove _ _ _ | EMouseDown | EMouseUp
  | ECursorClick _ | EMouseClick _ _ | ELocatorClick _ _ _ _ => true
  | _ => false
  end.

Definition is_close (e : Event) : bool :=
  match e with EBrowserClose => true | _ => false end.

Definition is_onNewToken (e : Event) : bool :=
  match e with EOnNewToken _ => true | _ => false end.

Definition is_coordinates (e : Event) : bool :=
  match e with ECoordinates _ => true | _ => false end.

Definition is_badReport (e : Event) : bool :=
  match e with EBadReport _ => true | _ => false end.

(** The signal goes from clear to raised. *)
Definition is_signal_raise (e : Event) : bool :=
  match e with EControllerAbort true => true | _ => false end.

Definition count (p : Event -> bool) (l : list Event) : nat :=
  length (List.filter p l).

(** The calls of the main flow in a trace, in order. *)
Definition own (w : World) : list Event := List.filter flow_event (trace w).

(** What the route handler reads and writes. *)
Definition view (w : World) : bool * Promise (option string) * list Event :=
  (aborted w, returned w, List.filter handler_event (trace w)).

(** The credential the handler forwards to [onNewToken], if any. *)
Definition forwarded (r : Request) : list Event :=
  match headers r !! "authorization" with
  | Some authorization =>
      match JsString.pop (JsString.split authorization "Bearer ") with
      | Some token => if JsString.truthy (Some token) then [EOnNewToken token] else []
      | None => []
      end
  | None => []
  end.

(** The calls of one run of the handler; [was] is the state of the signal
    before it. *)
Definition handler_calls (r : Request) (was : bool) : list Event :=
  [ERouteAbort; EBrowserClose; EControllerAbort (negb was)] ++ forwarded r.

(** How one run of the handler settles the returned promise. *)
Definition handler_result (r : Request) : Promise (option string) :=
  match headers r !! "authorization" with
  | None => Rejected TypeError_split
  | Some _ =>
      match postDataJSON_token r with
      | Return token => Fulfilled token
      | Throw err => Rejected err
      end
  end.

(** One run of the handler, on views. *)
Definition hstep (r : Request) (v : bool * Promise (option string) * list Event)
    : bool * Promise (option string) * list Event :=
  (true, settle v.1.2 (handler_result r), v.2 ++ handler_calls r v.1.1).

Definition hsteps (rs : list Request) (v : bool * Promise (option string) * list Event)
    : bool * Promise (option string) * list Event :=
  fold_left (fun v r => hstep r v) rs v.

(** The requests that match the route at the clock values [a .. b-1]. *)
Definition matches (a b : nat) : list Request :=
  omap (env_route env) (seq a (b - a)).

(** The same, for a flow that started in [w]: none while the handler is
    not installed. *)
Definition handled (w : World) (b : nat) : list Request :=
  if routing w then matches (now w) b else [].

(** The solution of a drag challenge read two points at a time. *)
Fixpoint pairs (data : list Point) : list (Point * Point) :=
  match data with
  | start :: finish :: rest => (start, finish) :: pairs rest
  | _ => []
  end.

(** What the specification asks of one drag: move to the start, press,
    pause 1.1, move to the end in 30 steps, release; both ends are the
    origin of the container's box plus the offsets of the point. *)
Definition drag_calls_of_pair (box : Box num) (p : Point * Point) : list Event :=
  [ EMouseMove (num_add (box_x box) (to_number (px p.1)))
               (num_add (box_y box) (to_number (py p.1))) None;
    EMouseDown;
    ESleep (11 # 10);
    EMouseMove (num_add (box_x box) (to_number (px p.2)))
               (num_add (box_y box) (to_number (py p.2))) (Some 30);
    EMouseUp ].

Definition drag_calls (box : Box num) (data : list Point) : list Event :=
  concat (map (drag_calls_of_pair box) (pairs data)).

(** A promise settled by a sequence of handler runs: the first one
    wins. *)
Definition settle_all (rs : list Request) (p : Promise (option string))
    : Promise (option string) :=
  fold_left (fun p r => settle p (handler_result r)) rs p.

(** The calls of a sequence of handler runs; [was] is the state of the
    signal before the first. *)
Fixpoint calls (rs : list Request) (was : bool) : list Event :=
  match rs with
  | [] => []
  | r :: rs' => handler_calls r was ++ calls rs' true
  end.

Definition some {A} (l : list A) : bool :=
  match l with [] => false | _ => true end.

(** How the detached promise of the loop stands after a run of the
    loop. *)
Definition loop_outcome (o : option Err) : Promise unit :=
  match o with
  | None => Pending
  | Some err => if is_cancellation err then Fulfilled tt else Rejected err
  end.

(** The teardown made by the rejection handler of the loop. *)
Definition loop_teardown (o : option Err) : list Event :=
  match o with
  | None => []
  | Some err => if is_cancellation err then [] else [EBrowserClose]
  end.

(** [evolves P w w']: [w'] comes from [w] by calls of the class [P] and
    suspensions. *)
Inductive evolves (P : Event -> bool) : World -> World -> Prop :=
| evolves_refl w : evolves P w w
| evolves_emit e w w' : P e = true -> evolves P (emit e w) w' -> evolves P w w'
| evolves_tick w w' : evolves P (tick env w) w' -> evolves P w w'.

(** Every run of [m] stays within the calls of class [P]. *)
Definition runs {A} (P : Event -> bool) (m : M num A) : Prop :=
  forall w, evolves P w (m w).2.

(** [P] has every call of a pass of the loop after the wait. *)
Definition covers (P : Event -> bool) : Prop :=
  forall e, body_event e = true -> P e = true.

End Observations.

(** ** Concrete runs

    Integer coordinates, the humanized cursor switched off.  With this
    configuration the set-up takes the clock to 10; a pass of the loop on
    a selection challenge with one point then suspends at 10 (wait), 11
    (prompt text), 12 (screenshot), 13 (solver), 14 (click). *)

Definition config0 : Config :=
  {| userAgent := "Mozilla/5.0";
     currentToken := "session-jwt";
     cookies := [("__client", Some "c1")];
     ghostCursorEnabled := false;
     BROWSER_LOCALE := Some "en" |}.

Definition box0 : Box Z :=
  {| box_x := 100%Z; box_y := 50%Z; box_width := 400%Z; box_height := 300%Z |}.

Definition point (x y : string) : Point := {| px := x; py := y |}.

(** Modelled from the spec: [waitForRequests] of '@/lib/utils' is not
    among the sources.  It pauses until the network is quiet, and an
    observed CancellationSignal ends it with an error whose message
    indicates abortion. *)
Definition wait_until_quiet (signalled : bool) : Outcome unit :=
  if signalled then Throw (Error "AbortError") else Return tt.

(** A selection challenge that the solver answers with one point; no
    request ever matches the route. *)
Definition selection_env : Env Z :=
  {| env_route := fun _ => None;
     env_waitForRequests := fun _ => wait_until_quiet;
     env_innerText := fun _ => Return "Select all images with a bus";
     env_screenshot := fun _ => Return "iVBORw0KGgo=";
     env_readFile := fun _ => Return "/9j/4AAQSkZJRg==";
     env_coordinates := fun _ _ => Return {| data := [point "120" "80"]; id := "s1" |};
     env_boundingBox := fun _ _ => Return (Some box0);
     env_action := fun _ _ => Return tt |}.

Definition with_route (f : nat -> option Request) (e : Env Z) : Env Z :=
  {| env_route := f;
     env_waitForRequests := env_waitForRequests e;
     env_innerText := env_innerText e;
     env_screenshot := env_screenshot e;
     env_readFile := env_readFile e;
     env_coordinates := env_coordinates e;
     env_boundingBox := env_boundingBox e;
     env_action := env_action e |}.

Definition with_innerText (f : nat -> Outcome string) (e : Env Z) : Env Z :=
  {| env_route := env_route e;
     env_waitForRequests := env_waitForRequests e;
     env_innerText := f;
     env_screenshot := env_screenshot e;
     env_readFile := env_readFile e;
     env_coordinates := env_coordinates e;
     env_boundingBox := env_boundingBox e;
     env_action := env_action e |}.

Definition with_coordinates (f : nat -> Payload -> Outcome Captcha) (e : Env Z) : Env Z :=
  {| env_route := env_route e;
     env_waitForRequests := env_waitForRequests e;
     env_innerText := env_innerText e;
     env_screenshot := env_screenshot e;
     env_readFile := env_readFile e;
     env_coordinates := f;
     env_boundingBox := env_boundingBox e;
     env_action := env_action e |}.

Definition with_boundingBox (f : nat -> Locator -> Outcome (option (Box Z))) (e : Env Z)
    : Env Z :=
  {| env_route := env_route e;
     env_waitForRequests := env_waitForRequests e;
     env_innerText := env_innerText e;
     env_screenshot := env_screenshot e;
     env_readFile := env_readFile e;
     env_coordinates := env_coordinates e;
     env_boundingBox := f;
     env_action := env_action e |}.

Definition with_action (f : nat -> Event Z -> Outcome unit) (e : Env Z) : Env Z :=
  {| env_route := env_route e;
     env_waitForRequests := env_waitForRequests e;
     env_innerText := env_innerText e;
     env_screenshot := env_screenshot e;
     env_readFile := env_readFile e;
     env_coordinates := env_coordinates e;
     env_boundingBox := env_boundingBox e;
     env_action := f |}.

Definition at_clock (t : nat) (r : Request) : nat -> option Request :=
  fun n => if n =? t then Some r else None.

(** Scenario E of the specification. *)
Definition request_E : Request :=
  {| headers := {[ "authorization" := "Bearer abc123" ]};
     postData := JObject {[ "token" := "xyz" ]} |}.

(** The same request without an authorization header. *)
Definition request_no_authorization : Request :=
  {| headers := ∅;
     postData := JObject {[ "token" := "xyz" ]} |}.

(** The generation request is sent while the solver is being asked. *)
Definition env_E : Env Z := with_route (at_clock 13 request_E) selection_env.


Definition env_no_authorization : Env Z :=
  with_route (at_clock 13 request_no_authorization) selection_env.

(** A drag challenge answered with one pair of points. *)
Definition drag_env : Env Z :=
  with_innerText (fun _ => Return "Please drag the puzzle piece")
    (with_coordinates
       (fun _ _ => Return {| data := [point "10" "20"; point "210" "120"]; id := "s2" |})
       selection_env).

(** The container of the challenge has vanished. *)
Definition env_box_missing : Env Z :=
  with_boundingBox (fun _ _ => Return None) drag_env.

(** Scenario C of the specification: three points for a drag. *)
Definition three_points : Captcha :=
  {| data := [point "10" "20"; point "210" "120"; point "30" "40"]; id := "s3" |}.

Definition env_odd : Env Z :=
  with_coordinates (fun _ _ => Return three_points) drag_env.

Definition env_odd_box_missing : Env Z :=
  with_boundingBox (fun _ _ => Return None) env_odd.

(** The solver fails every time; the generation request is sent while it
    is asked for the third time (clock 17). *)
Definition env_unsolvable : Env Z :=
  with_route (at_clock 17 request_E)
    (with_coordinates (fun _ _ => Throw (Error "ERROR_CAPTCHA_UNSOLVABLE")) selection_env).

(** The page is closed from outside before the first classification. *)
Definition Error_closed : Err :=
  Error "locator.innerText: Target page, context or browser has been closed".

Definition env_page_closed : Env Z :=
  with_innerText (fun _ => Throw Error_closed) selection_env.

Definition is_submit_click (e : Event Z) : bool :=
  match e with
  | ELocatorClick SubmitButton _ _ _ => true
  | _ => false
  end.

Definition is_create_click (e : Event Z) : bool :=
  match e with
  | ELocatorClick CreateButton _ _ _ => true
  | _ => false
  end.

Definition Error_viewport : Err :=
  Error "locator.click: Element is outside of the viewport".

Definition Error_timeout : Err :=
  Error "locator.click: Timeout 30000ms exceeded.".

(** The click on the submit button fails. *)
Definition env_submit_fails (err : Err) : Env Z :=
  with_action (fun _ e => if is_submit_click e then Throw err else Return tt)
    selection_env.

(** ** The browser engine and the cookies (source lines 40-48, 74-92) *)

Inductive BrowserType := chromium | firefox.

(** [getBrowserType()]; the argument is [process.env.BROWSER]. *)
Definition getBrowserType (BROWSER : option string) : BrowserType :=
  let browser := option_map JsString.toLowerCase BROWSER in
  match browser with
  | Some name => if String.eqb name "firefox" then firefox else chromium
  | None => chromium
  end.

(** [browserCookies] as [launchBrowser] hands it to [addCookies]; the
    list [cookies cfg] is the record in the order of [for ... in]. *)
Definition browserCookies (cfg : Config) : list Cookie :=
  suno_cookie "__session" (currentToken cfg)
  :: map (fun kv => suno_cookie (fst kv) (default "undefined" (snd kv))) (cookies cfg).

Section Calls.

Context {num : Type} `{!JSNumber num}.

(** The click of one point of a selection solution, without the
    humanized cursor. *)
Definition selection_click (d : Point) : Event num :=
  ELocatorClick ChallengeContainer None true
    (Some {| position_x := to_number (px d); position_y := to_number (py d) |}).

Definition is_routeAbort (e : Event num) : bool :=
  match e with ERouteAbort => true | _ => false end.

(** The request sent to the solver. *)
Definition solver_payload (cfg : Config) (shot : string) (instructions : option string)
    : Payload :=
  {| body := shot;
     lang := BROWSER_LOCALE cfg;
     textinstructions :=
       match instructions with
       | Some _ => Some "CLICK on the shapes at their edge or center as shown above—please be precise!"
       | None => None
       end;
     imginstructions := instructions |}.

End Calls.

(** ** Worlds that differ in the signal only *)

Section Signal.

Context {num : Type} `{!JSNumber num}.

(** Two worlds with the same clock, the same state of the route and the
    same calls of the main flow so far; they may differ in the state of
    the signal (and in what the handler has done). *)
Definition same_flow (w w' : World num) : Prop :=
  now w = now w' /\ routing w = routing w' /\ own w = own w'.

(** A flow gives the same outcome and makes the same calls from two
    worlds. *)
Definition agree {A} (m : M num A) (w w' : World num) : Prop :=
  (m w).1 = (m w').1 /\ same_flow (m w).2 (m w').2.

(** A flow that does so from any two worlds that differ in the signal
    only. *)
Definition blind {A} (m : M num A) : Prop :=
  forall w w', same_flow w w' -> agree m w w'.

End Signal.

(** A page whose network-quiescence wait comes to its end whatever the
    state of the signal. *)
Definition env_deaf_wait : Env Z :=
  {| env_route := env_route env_E;
     env_waitForRequests := fun _ _ => Return tt;
     env_innerText := env_innerText env_E;
     env_screenshot := env_screenshot env_E;
     env_readFile := env_readFile env_E;
     env_coordinates := env_coordinates env_E;
     env_boundingBox := env_boundingBox env_E;
     env_action := env_action env_E |}.

(** Concrete runs for the set-up. *)

Definition Error_navigation : Err := Error "page.goto: net::ERR_NAME_NOT_RESOLVED".

(** The navigation fails. *)
Definition env_goto_fails : Env Z :=
  with_action (fun _ e => match e with EGoto => Throw Error_navigation | _ => Return tt end)
    selection_env.

(** The 'Close' label is not there and the first click on the Create
    button fails. *)
Definition env_flaky_clicks : Env Z :=
  with_action
    (fun _ e =>
       match e with
       | ELocatorClick CloseLabel _ _ _ => Throw (Error "locator.click: Timeout 2000ms exceeded.")
       | ELocatorClick CreateButton _ _ _ => Throw (Error "locator.click: Timeout 30000ms exceeded.")
       | _ => Return tt
       end)
    selection_env.

(** The screenshot of the challenge fails every time. *)
Definition env_no_screenshot : Env Z :=
  {| env_route := fun _ => None;
     env_waitForRequests := fun _ => wait_until_quiet;
     env_innerText := fun _ => Return "Select all images with a bus";
     env_screenshot := fun _ => Throw (Error "locator.screenshot: Timeout 5000ms exceeded.");
     env_readFile := fun _ => Return "/9j/4AAQSkZJRg==";
     env_coordinates := fun _ _ => Return {| data := [point "120" "80"]; id := "s1" |};
     env_boundingBox := fun _ _ => Return (Some box0);
     env_action := fun _ _ => Return tt |}.

Definition config_humanized : Config :=
  {| userAgent := "Mozilla/5.0";
     currentToken := "session-jwt";
     cookies := [("__client", Some "c1"); ("ajs_anonymous_id", None)];
     ghostCursorEnabled := true;
     BROWSER_LOCALE := None |}.

(** A request whose body is neither JSON nor form-encoded. *)
Definition request_plain_text : Request :=
  {| headers := {[ "authorization" := "Bearer abc123" ]};
     postData := NotJSON "hello" |}.

(** A request whose authorization header has another scheme and whose
    body has no token field. *)
Definition request_basic : Request :=
  {| headers := {[ "authorization" := "Basic dXNlcjpwYXNz" ]};
     postData := JObject ∅ |}.

(** A selection challenge whose container has no bounding box. *)
Definition env_no_box : Env Z :=
  with_boundingBox (fun _ _ => Return None) selection_env.

(** * Properties *)

(** ** Frame lemmas *)

Section Frame.

Context {num : Type} `{!JSNumber num}.
Variable env : Env num.
Variable cfg : Config.

Local Abbreviation World := (World num).
Local Abbreviation Event := (Event num).

Implicit Types (w : World) (e : Event) (P : Event -> bool).

Lemma evolves_trans P w1 w2 w3 :
  evolves env P w1 w2 -> evolves env P w2 w3 -> evolves env P w1 w3.
Proof.
  induction 1; intros H23; [assumption | |].
  - eapply evolves_emit; eauto.
  - apply evolves_tick; auto.
Qed.

Lemma evolves_weaken P Q w w' :
  (forall e, P e = true -> Q e = true) -> evolves env P w w' -> evolves env Q w w'.
Proof.
  intros HPQ; induction 1.
  - apply evolves_refl.
  - eapply evolves_emit; eauto.
  - apply evolves_tick; auto.
Qed.

Lemma runs_weaken {A} P Q (m : M num A) :
  (forall e, P e = true -> Q e = true) -> runs env P m -> runs env Q m.
Proof. intros HPQ Hm w. eapply evolves_weaken; eauto. Qed.

Lemma runs_ret {A} P (a : A) : runs env P (ret a).
Proof. intros w. apply evolves_refl. Qed.

Lemma runs_throw {A} P err : runs env P (@throw num A err).
Proof. intros w. apply evolves_refl. Qed.

Lemma runs_bind {A B} P (m : M num A) (k : A -> M num B) :
  runs env P m -> (forall a, runs env P (k a)) -> runs env P (bind m k).
Proof.
  intros Hm Hk w. unfold bind. specialize (Hm w).
  destruct (m w) as [[a | err] w1]; simpl in *; [| assumption].
  eapply evolves_trans; [exact Hm | apply Hk].
Qed.

Lemma runs_try_catch {A} P (m : M num A) (h : Err -> M num A) :
  runs env P m -> (forall err, runs env P (h err)) -> runs env P (try_catch m h).
Proof.
  intros Hm Hh w. unfold try_catch. specialize (Hm w).
  destruct (m w) as [[a | err] w1]; simpl in *; [assumption |].
  eapply evolves_trans; [exact Hm | apply Hh].
Qed.

Lemma runs_detach P (m : M num unit) :
  (forall err, P (EUnhandledRejection err) = true) ->
  runs env P m -> runs env P (detach m).
Proof.
  intros HP Hm w. unfold detach. specialize (Hm w).
  destruct (m w) as [[a | err] w1]; simpl in *; [assumption |].
  eapply evolves_trans; [exact Hm |].
  eapply evolves_emit; [apply HP | apply evolves_refl].
Qed.

Lemma evolves_call P c w : P c = true -> evolves env P w (tick env (emit c w)).
Proof.
  intros HP. eapply evolves_emit; [exact HP |].
  apply evolves_tick, evolves_refl.
Qed.

Lemma runs_call P c : P c = true -> runs env P (call env c).
Proof. intros HP w. apply evolves_call, HP. Qed.

Lemma runs_fire P c : P c = true -> runs env P (fire c).
Proof. intros HP w. eapply evolves_emit; [exact HP | apply evolves_refl]. Qed.

Lemma runs_waitForRequests P :
  P EWaitForRequests = true -> runs env P (waitForRequests env).
Proof. intros HP w. apply evolves_call, HP. Qed.

Lemma runs_innerText P : covers P -> runs env P (innerText env).
Proof. intros HP w. apply evolves_call, HP. reflexivity. Qed.

Lemma runs_screenshot P : covers P -> runs env P (screenshot env).
Proof. intros HP w. apply evolves_call, HP. reflexivity. Qed.

Lemma runs_readFile P : covers P -> runs env P (readFile env).
Proof. intros HP w. apply evolves_call, HP. reflexivity. Qed.

Lemma runs_coordinates P p : covers P -> runs env P (coordinates env p).
Proof. intros HP w. apply evolves_call, HP. reflexivity. Qed.

Lemma runs_boundingBox P l : covers P -> runs env P (boundingBox env l).
Proof. intros HP w. apply evolves_call, HP. reflexivity. Qed.

(** Closes a goal [runs env P m] for a flow [m] built from the
    combinators, given [covers P]. *)
Ltac flow_runs :=
  repeat
    match goal with
    | H : runs _ _ ?m |- runs _ _ ?m => exact H
    | |- runs _ _ (ret _) => apply runs_ret
    | |- runs _ _ (throw _) => apply runs_throw
    | |- runs _ _ (bind _ _) => apply runs_bind; [| intros ?]
    | |- runs _ _ (try_catch _ _) => apply runs_try_catch; [| intros ?]
    | H : covers _ |- runs _ _ (detach _) =>
        apply runs_detach; [intros ?; apply H; reflexivity |]
    | |- runs _ _ (innerText _) => apply runs_innerText; assumption
    | |- runs _ _ (screenshot _) => apply runs_screenshot; assumption
    | |- runs _ _ (readFile _) => apply runs_readFile; assumption
    | |- runs _ _ (coordinates _ _) => apply runs_coordinates; assumption
    | |- runs _ _ (boundingBox _ _) => apply runs_boundingBox; assumption
    | H : covers _ |- runs _ _ (call _ _) => apply runs_call; apply H; reflexivity
    | H : covers _ |- runs _ _ (fire _) => apply runs_fire; apply H; reflexivity
    | |- runs _ _ (match ?x with _ => _ end) => destruct x
    end.

Lemma runs_click P cursor ghost target position :
  covers P -> runs env P (click env cursor ghost target position).
Proof. intros HP. unfold click. flow_runs. Qed.

Lemma runs_attempt P drag : covers P -> runs env P (attempt env cfg drag).
Proof. intros HP. unfold attempt. flow_runs. Qed.

Lemma runs_solve_loop P fuel j drag :
  covers P -> runs env P (solve_loop env cfg fuel j drag).
Proof.
  intros HP. revert j. induction fuel as [| fuel IH]; intros j; simpl.
  - apply runs_ret.
  - pose proof (runs_attempt P drag HP). specialize (IH (j + 1)). flow_runs.
Qed.

Lemma runs_drags P box data : covers P -> runs env P (drags env box data).
Proof.
  intros HP. remember (length data) as n eqn:Hn.
  revert data Hn. induction n as [n IH] using lt_wf_ind. intros data Hn.
  destruct data as [| d1 [| d2 rest]]; simpl.
  - apply runs_ret.
  - flow_runs.
  - assert (Hrest : runs env P (drags env box rest)).
    { eapply (IH (length rest)); [subst n; simpl; lia | reflexivity]. }
    flow_runs.
Qed.

Lemma runs_clicks P data : covers P -> runs env P (clicks env cfg data).
Proof.
  intros HP. induction data as [| d rest IH]; simpl.
  - apply runs_ret.
  - pose proof (runs_click P (ghostCursorEnabled cfg) (ghostCursorEnabled cfg)
                  (TLocator ChallengeContainer)
                  (Some {| position_x := to_number (px d); position_y := to_number (py d) |}) HP).
    flow_runs.
Qed.

Lemma runs_act P wait drag captcha :
  covers P -> runs env P (act env cfg wait drag captcha).
Proof.
  intros HP. unfold act, defined.
  flow_runs; first [apply runs_drags | apply runs_clicks]; exact HP.
Qed.

Lemma runs_submit P : covers P -> runs env P (submit env cfg).
Proof.
  intros HP. unfold submit.
  pose proof (fun t => runs_click P (ghostCursorEnabled cfg) (ghostCursorEnabled cfg) t None HP) as Hc.
  apply runs_detach; [intros; apply HP; reflexivity |].
  apply runs_try_catch; [apply Hc |]. intros err.
  destruct (JsString.includes _ _); [| apply runs_throw].
  apply runs_detach; [intros; apply HP; reflexivity | apply Hc].
Qed.

Lemma runs_iteration P wait :
  covers P -> (wait = true -> P EWaitForRequests = true) ->
  runs env P (iteration env cfg wait).
Proof.
  intros HP Hw. unfold iteration, request_solution, solve.
  apply runs_bind.
  { apply runs_bind.
    { destruct wait; [apply runs_waitForRequests; auto | apply runs_ret]. }
    intros _. apply runs_bind; [apply runs_innerText, HP |]. intros text.
    apply runs_bind; [apply runs_solve_loop, HP | intros; apply runs_ret]. }
  intros challenge. apply runs_bind; [apply runs_act, HP |]. intros [wait' | wait'].
  - apply runs_ret.
  - apply runs_bind; [apply runs_submit, HP | intros; apply runs_ret].
Qed.

Lemma covers_flow : covers (@flow_event num).
Proof. intros e He. unfold body_event in He. apply andb_true_iff in He. tauto. Qed.

Lemma covers_body : covers (@body_event num).
Proof. intros e He. exact He. Qed.

Lemma evolves_loop fuel wait w :
  evolves env flow_event w (loop env cfg fuel wait w).2.
Proof.
  revert wait w. induction fuel as [| fuel IH]; intros wait w; simpl.
  - apply evolves_refl.
  - pose proof (runs_iteration flow_event wait covers_flow (fun _ => eq_refl) w) as Hi.
    destruct (iteration env cfg wait w) as [[wait' | err] w1]; simpl in *.
    + eapply evolves_trans; [exact Hi | apply IH].
    + exact Hi.
Qed.

Lemma evolves_idle P n w : evolves env P w (idle env n w).
Proof.
  revert w. induction n as [| n IH]; intros w; simpl.
  - apply evolves_refl.
  - apply evolves_tick, IH.
Qed.

Lemma runs_setup : runs env flow_event (setup env cfg).
Proof.
  pose proof covers_flow as HP.
  pose proof (fun t => runs_click flow_event (ghostCursorEnabled cfg) (ghostCursorEnabled cfg) t None HP) as Hc.
  unfold setup, launchBrowser.
  repeat
    match goal with
    | |- runs _ _ (click _ _ _ _ _) => apply Hc
    | |- runs _ _ (ret _) => apply runs_ret
    | |- runs _ _ (bind _ _) => apply runs_bind; [| intros ?]
    | |- runs _ _ (try_catch _ _) => apply runs_try_catch; [| intros ?]
    | |- runs _ _ (detach _) => apply runs_detach; [intros ?; reflexivity |]
    | |- runs _ _ (call _ _) => apply runs_call; reflexivity
    | |- runs _ _ (if ?x then _ else _) => destruct x
    end.
Qed.

End Frame.

(** ** The route handler seen from the main flow *)

Section Interceptor.

Context {num : Type} `{!JSNumber num}.
Variable env : Env num.
Variable cfg : Config.

Local Abbreviation World := (World num).
Local Abbreviation Event := (Event num).

Implicit Types (w : World) (e : Event) (P : Event -> bool) (r : Request).

Lemma handler_spec r w :
  handler r w =
  {| now := now w;
     trace := trace w ++ handler_calls r (aborted w);
     aborted := true;
     routing := routing w;
     returned := settle (returned w) (handler_result r);
     loopPromise := loopPromise w |}.
Proof.
  unfold handler, handler_calls, handler_result, forwarded, controller_abort.
  destruct w as [n tr ab ro re lp].
  destruct (headers r !! "authorization") as [auth |].
  - generalize (JsString.pop (JsString.split auth "Bearer ")). intros [tok |].
    + generalize (JsString.truthy (Some tok)). intros b.
      destruct ab, b, (postDataJSON_token r);
        unfold settle_returned, emit, set_aborted; cbn;
        rewrite <- ?app_assoc; reflexivity.
    + destruct ab, (postDataJSON_token r);
        unfold settle_returned, emit, set_aborted; cbn;
        rewrite <- ?app_assoc; reflexivity.
  - destruct ab; unfold settle_returned, emit, set_aborted; cbn;
      rewrite <- ?app_assoc; reflexivity.
Qed.

Lemma handler_calls_handler r was : forallb handler_event (@handler_calls num r was) = true.
Proof.
  unfold handler_calls, forwarded. simpl.
  destruct (headers r !! "authorization") as [auth |]; [| reflexivity].
  destruct (JsString.pop (JsString.split auth "Bearer ")) as [tok |]; [| reflexivity].
  destruct (JsString.truthy (Some tok)); reflexivity.
Qed.

Lemma filter_handler_calls r was :
  List.filter handler_event (@handler_calls num r was) = handler_calls r was.
Proof.
  apply forallb_filter_id, handler_calls_handler.
Qed.

Lemma filter_flow_handler_calls r was :
  List.filter flow_event (@handler_calls num r was) = [].
Proof.
  pose proof (handler_calls_handler r was) as H.
  induction (handler_calls r was) as [| e l IH]; [reflexivity |].
  simpl in *. apply andb_true_iff in H as [He Hl].
  unfold flow_event at 1. rewrite He. simpl. auto.
Qed.

Lemma view_handler r w : view (handler r w) = hstep r (view w).
Proof.
  rewrite handler_spec. unfold view, hstep; simpl.
  rewrite List.filter_app, filter_handler_calls. reflexivity.
Qed.

Lemma own_handler r w : own (handler r w) = own w.
Proof.
  rewrite handler_spec. unfold own; simpl.
  rewrite List.filter_app, filter_flow_handler_calls, app_nil_r. reflexivity.
Qed.

Lemma view_emit e w : handler_event e = false -> view (emit e w) = view w.
Proof.
  intros He. unfold view; simpl. rewrite List.filter_app; simpl.
  rewrite He, app_nil_r. reflexivity.
Qed.

Lemma own_emit e w : flow_event e = true -> own (emit e w) = own w ++ [e].
Proof.
  intros He. unfold own; simpl. rewrite List.filter_app; simpl.
  rewrite He. reflexivity.
Qed.

Lemma tick_now w : now (tick env w) = S (now w).
Proof.
  unfold tick. destruct (routing w); simpl; [| reflexivity].
  destruct (env_route env (now w)); simpl; [| reflexivity].
  rewrite handler_spec; reflexivity.
Qed.

Lemma tick_routing w : routing (tick env w) = routing w.
Proof.
  unfold tick. destruct (routing w) eqn:Hr; simpl; [| exact Hr].
  destruct (env_route env (now w)); simpl; [| exact Hr].
  rewrite handler_spec; simpl. exact Hr.
Qed.

Lemma tick_loopPromise w : loopPromise (tick env w) = loopPromise w.
Proof.
  unfold tick. destruct (routing w); simpl; [| reflexivity].
  destruct (env_route env (now w)); simpl; [| reflexivity].
  rewrite handler_spec; reflexivity.
Qed.

Lemma own_tick w : own (tick env w) = own w.
Proof.
  unfold tick. destruct (routing w); [| reflexivity].
  destruct (env_route env (now w)); [| reflexivity].
  apply (own_handler r w).
Qed.

Lemma matches_nil a : matches env a a = [].
Proof. unfold matches. rewrite Nat.sub_diag. reflexivity. Qed.

Lemma matches_step a b :
  a < b ->
  matches env a b =
  match env_route env a with Some r => [r] | None => [] end ++ matches env (S a) b.
Proof.
  intros Hab. unfold matches.
  replace (b - a) with (S (b - S a)) by lia. simpl.
  destruct (env_route env a); reflexivity.
Qed.

Lemma matches_app a b c :
  a <= b -> b <= c -> matches env a c = matches env a b ++ matches env b c.
Proof.
  intros Hab Hbc. unfold matches.
  replace (c - a) with ((b - a) + (c - b)) by lia.
  rewrite seq_app, omap_app. repeat f_equal. lia.
Qed.

Lemma view_tick w :
  view (tick env w) = hsteps (handled env w (S (now w))) (view w).
Proof.
  unfold handled, tick. destruct (routing w); [| reflexivity].
  rewrite matches_step, matches_nil by lia.
  destruct (env_route env (now w)) as [r |]; simpl; [| reflexivity].
  apply (view_handler r w).
Qed.

Lemma hsteps_app rs rs' v : hsteps (rs ++ rs') v = @hsteps num rs' (hsteps rs v).
Proof. unfold hsteps. apply fold_left_app. Qed.

(** The main flow changes what the handler sees through suspensions
    only: the clock, the installed handler and the requests decide it. *)
Lemma evolves_view P w w' :
  (forall e, P e = true -> handler_event e = false) ->
  evolves env P w w' ->
  now w <= now w' /\ routing w' = routing w /\ loopPromise w' = loopPromise w /\
  view w' = hsteps (handled env w (now w')) (view w).
Proof.
  intros HP. induction 1 as [w | e w w' He Hev IH | w w' Hev IH].
  - repeat split; try lia.
    unfold handled. rewrite matches_nil. destruct (routing w); reflexivity.
  - destruct IH as (Hn & Hr & Hl & Hv). simpl in *.
    repeat split; try assumption.
    rewrite Hv. unfold handled; simpl. rewrite view_emit by auto. reflexivity.
  - destruct IH as (Hn & Hr & Hl & Hv).
    rewrite tick_now in Hn. rewrite tick_routing in Hr. rewrite tick_loopPromise in Hl.
    repeat split; try assumption; try lia.
    rewrite Hv, view_tick, <- hsteps_app. f_equal.
    unfold handled. rewrite tick_routing, tick_now.
    destruct (routing w); [| reflexivity].
    symmetry. apply matches_app; lia.
Qed.

(** The calls of the main flow between two worlds. *)
Lemma evolves_own P w w' :
  (forall e, P e = true -> flow_event e = true) ->
  evolves env P w w' ->
  exists evs, own w' = own w ++ evs /\ forallb P evs = true.
Proof.
  intros HP. induction 1 as [w | e w w' He Hev IH | w w' Hev IH].
  - exists []. rewrite app_nil_r. split; reflexivity.
  - destruct IH as (evs & Ho & Hall). exists (e :: evs).
    rewrite Ho, own_emit by auto. rewrite <- app_assoc. simpl.
    rewrite He, Hall. split; reflexivity.
  - destruct IH as (evs & Ho & Hall). exists evs.
    rewrite Ho, own_tick. split; [reflexivity | assumption].
Qed.

End Interceptor.

(** ** The solver retry, the drag replay and the rejected solutions *)

Section Loop.

Context {num : Type} `{!JSNumber num}.
Variable env : Env num.
Variable cfg : Config.

Local Abbreviation World := (World num).
Local Abbreviation Event := (Event num).

Implicit Types (w : World) (e : Event) (p : Event -> bool).

Lemma count_app p (l l' : list Event) : count p (l ++ l') = count p l + count p l'.
Proof. unfold count. rewrite List.filter_app, length_app. reflexivity. Qed.

Lemma count_emit p e w :
  count p (trace (emit e w)) = count p (trace w) + (if p e then 1 else 0).
Proof.
  simpl. rewrite count_app. unfold count at 2. simpl. destruct (p e); reflexivity.
Qed.

Lemma count_handler_calls p r was :
  (forall e, handler_event e = true -> p e = false) ->
  count p (@handler_calls num r was) = 0.
Proof.
  intros Hp. pose proof (handler_calls_handler (num:=num) r was) as H.
  unfold count. induction (handler_calls r was) as [| e l IH]; [reflexivity |].
  simpl in *. apply andb_true_iff in H as [He Hl].
  rewrite (Hp e He). auto.
Qed.

Lemma count_tick p w :
  (forall e, handler_event e = true -> p e = false) ->
  count p (trace (tick env w)) = count p (trace w).
Proof.
  intros Hp. unfold tick. destruct (routing w); simpl; [| reflexivity].
  destruct (env_route env (now w)) as [r |]; simpl; [| reflexivity].
  rewrite handler_spec; simpl.
  rewrite count_app, count_handler_calls by assumption. lia.
Qed.

Lemma coordinates_not_handler e : @handler_event num e = true -> is_coordinates e = false.
Proof. destruct e; simpl; congruence. Qed.

Lemma attempt_coordinates drag w :
  count is_coordinates (trace (attempt env cfg drag w).2)
  <= count is_coordinates (trace w) + 1.
Proof.
  pose proof coordinates_not_handler as Hp.
  unfold attempt, bind, screenshot, readFile, coordinates, ret.
  destruct (env_screenshot env (now w)) as [shot | err]; cbn;
    [| rewrite count_tick, count_emit by assumption; cbn; lia].
  destruct drag; cbn.
  - destruct (env_readFile env _) as [img | err]; cbn.
    + repeat (rewrite count_tick by assumption; rewrite count_emit; cbn). lia.
    + repeat (rewrite count_tick by assumption; rewrite count_emit; cbn). lia.
  - repeat (rewrite count_tick by assumption; rewrite count_emit; cbn). lia.
Qed.

(** C5.  The solving service is asked at most three times for one
    challenge; a fulfilled attempt is the result at once, each of the
    first two failed attempts is followed by another one, and the error of
    a failed third attempt leaves the retry loop. *)
Theorem solve_three_attempts (drag : bool) (w : World) :
  count is_coordinates (trace (solve env cfg drag w).2)
    <= count is_coordinates (trace w) + 3
  /\ solve env cfg drag w =
     match attempt env cfg drag w with
     | (Return c, w1) => (Return (Some c), w1)
     | (Throw _, w1) =>
         match attempt env cfg drag w1 with
         | (Return c, w2) => (Return (Some c), w2)
         | (Throw _, w2) =>
             match attempt env cfg drag w2 with
             | (Return c, w3) => (Return (Some c), w3)
             | (Throw err, w3) => (Throw err, w3)
             end
         end
     end.
Proof.
  assert (Heq : solve env cfg drag w =
     match attempt env cfg drag w with
     | (Return c, w1) => (Return (Some c), w1)
     | (Throw _, w1) =>
         match attempt env cfg drag w1 with
         | (Return c, w2) => (Return (Some c), w2)
         | (Throw _, w2) =>
             match attempt env cfg drag w2 with
             | (Return c, w3) => (Return (Some c), w3)
             | (Throw err, w3) => (Throw err, w3)
             end
         end
     end).
  { unfold solve. simpl. unfold try_catch, bind, ret, throw.
    destruct (attempt env cfg drag w) as [[c | e1] w1]; [reflexivity |].
    destruct (attempt env cfg drag w1) as [[c | e2] w2]; [reflexivity |].
    destruct (attempt env cfg drag w2) as [[c | e3] w3]; reflexivity. }
  split; [| exact Heq].
  rewrite Heq.
  pose proof (attempt_coordinates drag w) as H1.
  destruct (attempt env cfg drag w) as [[c | e1] w1]; simpl in *; [lia |].
  pose proof (attempt_coordinates drag w1) as H2.
  destruct (attempt env cfg drag w1) as [[c | e2] w2]; simpl in *; [lia |].
  pose proof (attempt_coordinates drag w2) as H3.
  destruct (attempt env cfg drag w2) as [[c | e3] w3]; simpl in *; lia.
Qed.

Lemma own_call c w :
  flow_event c = true -> own (tick env (emit c w)) = own w ++ [c].
Proof. intros Hc. rewrite own_tick, own_emit by assumption. reflexivity. Qed.

Lemma pair_ind (P : list Point -> Prop) :
  P [] -> (forall x, P [x]) -> (forall x y l, P l -> P (x :: y :: l)) ->
  forall l, P l.
Proof.
  intros H0 H1 H2. fix IH 1. intros [| x [| y l]]; [exact H0 | apply H1 |].
  apply H2, IH.
Qed.

Lemma drag_calls_cons box x y l :
  drag_calls box (x :: y :: l) = drag_calls_of_pair box (x, y) ++ drag_calls box l.
Proof. reflexivity. Qed.

(** The replay of a solution with an even number of points. *)
Lemma drags_own box data w :
  Nat.even (length data) = true ->
  exists evs,
    own (drags env box data w).2 = own w ++ evs /\
    evs `prefix_of` drag_calls box data /\
    ((drags env box data w).1 = Return tt -> evs = drag_calls box data) /\
    ((forall t c, env_action env t c = Return tt) ->
     (drags env box data w).1 = Return tt).
Proof.
  revert w. induction data as [| x | x y l IH] using pair_ind; intros w Heven.
  - exists []. rewrite app_nil_r. repeat split; auto.
  - discriminate Heven.
  - rewrite drag_calls_cons. cbn [drags]. unfold bind, call.
    set (c1 := drag_start box x). set (c4 := drag_end box y).
    set (w1 := tick env (emit c1 w)).
    set (w2 := tick env (emit EMouseDown w1)).
    set (w3 := tick env (emit (ESleep (11 # 10)) w2)).
    set (w4 := tick env (emit c4 w3)).
    set (w5 := tick env (emit EMouseUp w4)).
    assert (H1 : own w1 = own w ++ [c1]) by (apply own_call; reflexivity).
    assert (H2 : own w2 = own w ++ [c1; EMouseDown]).
    { unfold w2. rewrite own_call, H1, <- app_assoc by reflexivity. reflexivity. }
    assert (H3 : own w3 = own w ++ [c1; EMouseDown; ESleep (11 # 10)]).
    { unfold w3. rewrite own_call, H2, <- app_assoc by reflexivity. reflexivity. }
    assert (H4 : own w4 = own w ++ [c1; EMouseDown; ESleep (11 # 10); c4]).
    { unfold w4. rewrite own_call, H3, <- app_assoc by reflexivity. reflexivity. }
    assert (H5 : own w5 = own w ++ drag_calls_of_pair box (x, y)).
    { unfold w5. rewrite own_call, H4, <- app_assoc by reflexivity. reflexivity. }
    destruct (env_action env (now w) c1) as [[] | e1] eqn:E1; cbn.
    2: { exists [c1]. repeat split; [assumption | eexists; reflexivity | discriminate |].
         intros Hall. rewrite Hall in E1. discriminate. }
    destruct (env_action env (now w1) EMouseDown) as [[] | e2] eqn:E2; cbn.
    2: { exists [c1; EMouseDown].
         repeat split; [assumption | eexists; reflexivity | discriminate |].
         intros Hall. rewrite Hall in E2. discriminate. }
    destruct (env_action env (now w2) (ESleep (11 # 10))) as [[] | e3] eqn:E3; cbn.
    2: { exists [c1; EMouseDown; ESleep (11 # 10)].
         repeat split; [assumption | eexists; reflexivity | discriminate |].
         intros Hall. rewrite Hall in E3. discriminate. }
    destruct (env_action env (now w3) c4) as [[] | e4] eqn:E4; cbn.
    2: { exists [c1; EMouseDown; ESleep (11 # 10); c4].
         repeat split; [assumption | eexists; reflexivity | discriminate |].
         intros Hall. rewrite Hall in E4. discriminate. }
    destruct (env_action env (now w4) EMouseUp) as [[] | e5] eqn:E5; cbn.
    2: { exists (drag_calls_of_pair box (x, y)).
         repeat split; [assumption | eexists; reflexivity | discriminate |].
         intros Hall. rewrite Hall in E5. discriminate. }
    destruct (IH w5 Heven) as (evs & Ho & Hpre & Hret & Hall).
    exists (drag_calls_of_pair box (x, y) ++ evs). split; [| split; [| split]].
    + rewrite Ho, H5, <- app_assoc. reflexivity.
    + destruct Hpre as [k Hk]. exists k. rewrite Hk, <- app_assoc. reflexivity.
    + intros Hr. rewrite (Hret Hr). reflexivity.
    + exact Hall.
Qed.

(** C8.  A drag solution is replayed pair by pair, in the order of the
    solver's answer; each pair is: move to the start, press, pause 1.1,
    move to the end in 30 steps, release, with both ends at the origin of
    the container's bounding box plus the offsets of the point.  A replay
    cut short by a failing call is a prefix of that sequence. *)
Theorem drag_replay (wait : bool) (captcha : Captcha) (box : Box num) (w : World) :
  env_boundingBox env (now w) ChallengeContainer = Return (Some box) ->
  Nat.odd (length (data captcha)) = false ->
  exists evs,
    own (act env cfg wait true (Some captcha) w).2
      = own w ++ EBoundingBox ChallengeContainer :: evs /\
    evs `prefix_of` drag_calls box (data captcha) /\
    (forall next, (act env cfg wait true (Some captcha) w).1 = Return next ->
                  next = Submit true /\ evs = drag_calls box (data captcha)) /\
    ((forall t c, env_action env t c = Return tt) ->
     (act env cfg wait true (Some captcha) w).1 = Return (Submit true)).
Proof.
  intros Hbox Hodd.
  assert (Heven : Nat.even (length (data captcha)) = true).
  { rewrite <- Nat.negb_odd, Hodd. reflexivity. }
  unfold act, bind, boundingBox, defined, ret. rewrite Hbox, Hodd.
  set (w1 := tick env (emit (EBoundingBox ChallengeContainer) w)).
  assert (H1 : own w1 = own w ++ [EBoundingBox ChallengeContainer])
    by (apply own_call; reflexivity).
  destruct (drags_own box (data captcha) w1 Heven) as (evs & Ho & Hpre & Hret & Hall).
  exists evs.
  destruct (drags env box (data captcha) w1) as [[[] | err] w2]; cbn in *.
  - split; [rewrite Ho, H1, <- app_assoc; reflexivity |].
    split; [exact Hpre |]. split; [| reflexivity].
    intros next Hn. injection Hn as <-. auto.
  - split; [rewrite Ho, H1, <- app_assoc; reflexivity |].
    split; [exact Hpre |]. split; [intros next Hn; discriminate |].
    intros Hok. discriminate (Hall Hok).
Qed.

Lemma act_odd wait captcha box w :
  env_boundingBox env (now w) ChallengeContainer = Return (Some box) ->
  Nat.odd (length (data captcha)) = true ->
  act env cfg wait true (Some captcha) w
  = (Return (Continue false),
     emit (EBadReport (id captcha)) (tick env (emit (EBoundingBox ChallengeContainer) w))).
Proof.
  intros Hbox Hodd. unfold act, bind, boundingBox, defined, ret, fire.
  rewrite Hbox, Hodd. reflexivity.
Qed.

Lemma act_odd_no_pointer wait captcha w :
  Nat.odd (length (data captcha)) = true ->
  count pointer_action (own (act env cfg wait true (Some captcha) w).2)
  = count pointer_action (own w).
Proof.
  intros Hodd.
  assert (H1 : own (tick env (emit (EBoundingBox ChallengeContainer) w))
               = own w ++ [EBoundingBox ChallengeContainer])
    by (apply own_call; reflexivity).
  destruct (env_boundingBox env (now w) ChallengeContainer) as [[box |] | err] eqn:Hbox.
  - rewrite (act_odd wait captcha box w Hbox Hodd). cbn [snd].
    rewrite own_emit, H1, <- app_assoc, count_app by reflexivity. cbn. lia.
  - unfold act, bind, boundingBox, throw. rewrite Hbox. cbn [snd].
    rewrite H1, count_app. cbn. lia.
  - unfold act, bind, boundingBox. rewrite Hbox. cbn [snd].
    rewrite H1, count_app. cbn. lia.
Qed.

(** C4 (amended).  In a pass classified as a drag in which the solver's
    answer has an odd number of points and the bounding box of the
    challenge container is resolved: the pass makes no pointer call, it
    reports that solution once, by its identifier, and the loop goes on
    with [wait] cleared, so that the next pass starts at the
    classification and makes no network-quiescence wait.  Whatever the
    bounding box, an odd solution is never replayed. *)
Theorem odd_drag_solution_rejected
    (wait : bool) (w0 : World) (captcha : Captcha) (w : World) (box : Box num) :
  request_solution env cfg wait w0 = (Return (true, Some captcha), w) ->
  env_boundingBox env (now w) ChallengeContainer = Return (Some box) ->
  Nat.odd (length (data captcha)) = true ->
  (exists w',
     iteration env cfg wait w0 = (Return false, w') /\
     own w' = own w ++ [EBoundingBox ChallengeContainer; EBadReport (id captcha)] /\
     (forall fuel, loop env cfg (S fuel) wait w0 = loop env cfg fuel false w') /\
     (exists evs,
        own (iteration env cfg false w').2 = own w' ++ EInnerText :: evs /\
        forallb body_event evs = true)) /\
  (forall wait2 c2 w2,
     Nat.odd (length (data c2)) = true ->
     count pointer_action (own (act env cfg wait2 true (Some c2) w2).2)
     = count pointer_action (own w2)).
Proof.
  intros Hreq Hbox Hodd. split; [| intros; apply act_odd_no_pointer; assumption].
  set (w' := emit (EBadReport (id captcha))
               (tick env (emit (EBoundingBox ChallengeContainer) w))).
  assert (Hit : iteration env cfg wait w0 = (Return false, w')).
  { unfold iteration, bind at 1. rewrite Hreq. cbn [fst snd].
    unfold bind. rewrite (act_odd wait captcha box w Hbox Hodd). reflexivity. }
  exists w'. split; [exact Hit |]. split; [| split].
  - unfold w'. rewrite own_emit, own_call, <- app_assoc by reflexivity. reflexivity.
  - intros fuel. cbn [loop]. rewrite Hit. reflexivity.
  - set (rest := fun text : string =>
        let drag := JsString.includes (JsString.toLowerCase text) "drag" in
        bind (bind (solve env cfg drag) (fun c => ret (drag, c)))
          (fun challenge =>
             bind (act env cfg false (fst challenge) (snd challenge))
               (fun next => match next with
                            | Continue wait' => ret wait'
                            | Submit wait' => bind (submit env cfg) (fun _ => ret wait')
                            end))).
    assert (Hrest : forall text, runs env body_event (rest text)).
    { intros text. unfold rest.
      apply runs_bind.
      { apply runs_bind; [apply runs_solve_loop, covers_body | intros; apply runs_ret]. }
      intros challenge. apply runs_bind; [apply runs_act, covers_body |].
      intros [wait' | wait']; [apply runs_ret |].
      apply runs_bind; [apply runs_submit, covers_body | intros; apply runs_ret]. }
    assert (Heq : iteration env cfg false w' = bind (innerText env) rest w').
    { unfold iteration, request_solution, bind, ret, rest, innerText.
      destruct (env_innerText env (now w')); reflexivity. }
    rewrite Heq. unfold bind, innerText.
    set (w1 := tick env (emit EInnerText w')).
    assert (H1 : own w1 = own w' ++ [EInnerText]) by (apply own_call; reflexivity).
    destruct (env_innerText env (now w')) as [text | err]; cbn [snd].
    + destruct (evolves_own env body_event w1 (rest text w1).2) as (evs & Ho & Hall).
      * intros e He. apply andb_true_iff in He. tauto.
      * apply Hrest.
      * exists evs. rewrite Ho, H1, <- app_assoc. split; [reflexivity | exact Hall].
    + exists []. split; [exact H1 | reflexivity].
Qed.

End Loop.

(** ** Whole runs *)

Section Run.

Context {num : Type} `{!JSNumber num}.
Variable env : Env num.
Variable cfg : Config.

Local Abbreviation World := (World num).
Local Abbreviation Event := (Event num).

Implicit Types (w : World) (e : Event) (p : Event -> bool) (r : Request).

Lemma flow_not_handler e : flow_event e = true -> handler_event e = false.
Proof. unfold flow_event. destruct (handler_event e); simpl; congruence. Qed.

Lemma hsteps_aborted rs (v : bool * Promise (option string) * list Event) :
  (hsteps rs v).1.1 = v.1.1 || some rs.
Proof.
  revert v. induction rs as [| r rs IH]; intros v; simpl.
  - rewrite orb_false_r. reflexivity.
  - unfold hsteps in *. simpl. rewrite IH. simpl. rewrite orb_true_r. reflexivity.
Qed.

Lemma hsteps_returned rs (v : bool * Promise (option string) * list Event) :
  (hsteps rs v).1.2 = settle_all rs v.1.2.
Proof.
  revert v. induction rs as [| r rs IH]; intros v; [reflexivity |].
  unfold hsteps, settle_all in *. simpl. rewrite IH. reflexivity.
Qed.

Lemma hsteps_calls rs (v : bool * Promise (option string) * list Event) :
  (hsteps rs v).2 = v.2 ++ calls rs v.1.1.
Proof.
  revert v. induction rs as [| r rs IH]; intros v; simpl.
  - rewrite app_nil_r. reflexivity.
  - unfold hsteps in *. simpl. rewrite IH. simpl. rewrite <- app_assoc. reflexivity.
Qed.


Lemma settle_all_app rs rs' (q : Promise (option string)) :
  settle_all (rs ++ rs') q = settle_all rs' (settle_all rs q).
Proof. unfold settle_all. apply fold_left_app. Qed.

Lemma calls_app rs rs' was :
  @calls num (rs ++ rs') was = calls rs was ++ calls rs' (was || some rs).
Proof.
  revert was. induction rs as [| r rs IH]; intros was; simpl.
  - rewrite orb_false_r. reflexivity.
  - rewrite IH, <- app_assoc. simpl. rewrite orb_true_r. reflexivity.
Qed.

Lemma count_filter p (l : list Event) :
  (forall e, p e = true -> handler_event e = true) ->
  count p (List.filter handler_event l) = count p l.
Proof.
  intros Hp. unfold count. induction l as [| e l IH]; [reflexivity |]. simpl.
  destruct (handler_event e) eqn:He; simpl.
  - destruct (p e); simpl; rewrite IH; reflexivity.
  - destruct (p e) eqn:Hpe; [rewrite (Hp e Hpe) in He; discriminate | exact IH].
Qed.

Lemma count_close_calls rs was : count is_close (@calls num rs was) = length rs.
Proof.
  revert was. induction rs as [| r rs IH]; intros was; [reflexivity |]. cbn [calls].
  rewrite count_app, IH. unfold handler_calls. rewrite count_app.
  assert (Hf : count is_close (@forwarded num r) = 0).
  { unfold forwarded. destruct (headers r !! "authorization") as [auth |]; [| reflexivity].
    destruct (JsString.pop (JsString.split auth "Bearer ")) as [tok |]; [| reflexivity].
    destruct (JsString.truthy (Some tok)); reflexivity. }
  rewrite Hf. reflexivity.
Qed.

Lemma count_token_calls rs was :
  count is_onNewToken (@calls num rs was)
  = length (flat_map (@forwarded num) rs).
Proof.
  revert was. induction rs as [| r rs IH]; intros was; [reflexivity |]. cbn [calls].
  rewrite count_app, IH. unfold handler_calls. rewrite count_app. cbn [flat_map].
  rewrite length_app.
  assert (Hf : count is_onNewToken (@forwarded num r) = length (@forwarded num r)).
  { unfold forwarded. destruct (headers r !! "authorization") as [auth |]; [| reflexivity].
    destruct (JsString.pop (JsString.split auth "Bearer ")) as [tok |]; [| reflexivity].
    destruct (JsString.truthy (Some tok)); reflexivity. }
  rewrite Hf. reflexivity.
Qed.

Lemma count_raise_calls rs was :
  count is_signal_raise (@calls num rs was)
  = if was then 0 else if some rs then 1 else 0.
Proof.
  assert (Hf : forall r, count is_signal_raise (@forwarded num r) = 0).
  { intros r. unfold forwarded.
    destruct (headers r !! "authorization") as [auth |]; [| reflexivity].
    destruct (JsString.pop (JsString.split auth "Bearer ")) as [tok |]; [| reflexivity].
    destruct (JsString.truthy (Some tok)); reflexivity. }
  revert was. induction rs as [| r rs IH]; intros was; [destruct was; reflexivity |].
  cbn [calls]. rewrite count_app, IH. unfold handler_calls. rewrite count_app, Hf.
  destruct was; reflexivity.
Qed.


(** *** The phases of a run *)

Lemma setup_view w' :
  (setup env cfg initial).2 = w' ->
  routing w' = false /\ loopPromise w' = Pending /\ view w' = (false, Pending, []).
Proof.
  intros <-.
  destruct (evolves_view env flow_event initial (setup env cfg initial).2
              flow_not_handler (runs_setup env cfg initial)) as (_ & Hr & Hl & Hv).
  repeat split; assumption.
Qed.

Lemma finish_fields err w :
  loopPromise w = Pending ->
  now (finish err w) = now w /\ routing (finish err w) = routing w /\
  aborted (finish err w) = aborted w /\ returned (finish err w) = returned w /\
  loopPromise (finish err w)
    = (if is_cancellation err then Fulfilled tt else Rejected err) /\
  trace (finish err w)
    = trace w ++ (if is_cancellation err then []
                  else [EBrowserClose; EUnhandledRejection err]).
Proof.
  intros Hl. unfold finish. destruct (is_cancellation err); simpl; rewrite Hl; simpl.
  - rewrite app_nil_r. repeat split.
  - rewrite <- app_assoc. repeat split.
Qed.

(** A run in which the set-up went through, phase by phase. *)
Lemma run_summary fuel turns :
  (setup env cfg initial).1 = Return tt ->
  let ws := (setup env cfg initial).2 in
  let l := loop env cfg fuel true (install_route ws) in
  let final := getCaptchaToken env cfg fuel turns in
  let ms1 := matches env (now ws) (now l.2) in
  let ms2 := matches env (now l.2) (now final) in
  now ws <= now l.2 /\ now l.2 <= now final /\
  ms1 ++ ms2 = matches env (now ws) (now final) /\
  returned final = settle_all (ms1 ++ ms2) Pending /\
  aborted final = some (ms1 ++ ms2) /\
  loopPromise final = loop_outcome l.1 /\
  List.filter handler_event (trace final)
    = calls ms1 false ++ loop_teardown l.1 ++ calls ms2 (some ms1).
Proof.
  intros Hs ws l final ms1 ms2.
  destruct (setup_view ws eq_refl) as (Hrs & Hls & Hvs).
  set (wr := install_route ws).
  assert (Hvr : view wr = (false, Pending, [])) by exact Hvs.
  destruct (evolves_view env flow_event wr l.2 flow_not_handler
              (evolves_loop env cfg fuel true wr)) as (Hn1 & Hr1 & Hl1 & Hv1).
  unfold handled in Hv1. change (routing wr) with true in *. cbn iota in Hv1.
  change (now wr) with (now ws) in *. change (loopPromise wr) with (loopPromise ws) in Hl1.
  rewrite Hls in Hl1. fold ms1 in Hv1.
  set (wf := challengeLoop env cfg fuel wr).
  assert (Hwf : now wf = now l.2 /\ routing wf = true /\
                aborted wf = aborted l.2 /\ returned wf = returned l.2 /\
                loopPromise wf = loop_outcome l.1 /\
                trace wf = trace l.2 ++
                  match l.1 with
                  | None => []
                  | Some err => if is_cancellation err then []
                                else [EBrowserClose; EUnhandledRejection err]
                  end).
  { unfold wf, challengeLoop. change (loop env cfg fuel true wr) with l. destruct l as [[err |] wl]; cbn [fst snd loop_outcome] in *.
    - destruct (finish_fields err wl Hl1) as (? & ? & ? & ? & ? & ?).
      repeat split; congruence.
    - rewrite app_nil_r. repeat split; assumption. }
  destruct Hwf as (Hnf & Hrf & Haf & Hretf & Hlf & Htf).
  assert (Hfinal : final = idle env turns wf).
  { unfold final, getCaptchaToken. fold ws.
    destruct (setup env cfg initial) as [[[] | err] w0]; simpl in *; [reflexivity | discriminate]. }
  destruct (evolves_view env flow_event wf final flow_not_handler) as (Hn2 & Hr2 & Hl2 & Hv2).
  { rewrite Hfinal. apply evolves_idle. }
  unfold handled in Hv2. rewrite Hrf, Hnf in Hv2. fold ms2 in Hv2. rewrite Hnf in Hn2.
  assert (Hview_f : view wf = (some ms1, settle_all ms1 Pending,
                               calls ms1 false ++ loop_teardown l.1)).
  { unfold view. rewrite Haf, Hretf, Htf, List.filter_app.
    pose proof (f_equal (fun v => v.1.1) Hv1) as Ha. cbn in Ha.
    pose proof (f_equal (fun v => v.1.2) Hv1) as Hre. cbn in Hre.
    pose proof (f_equal (fun v => v.2) Hv1) as Htr. cbn in Htr.
    rewrite hsteps_aborted in Ha. rewrite hsteps_returned in Hre. rewrite hsteps_calls in Htr.
    rewrite Hvr in Ha, Hre, Htr. cbn in Ha, Hre, Htr.
    rewrite Ha, Hre, Htr. f_equal.
    unfold loop_teardown. destruct l.1 as [err |]; [| reflexivity].
    destruct (is_cancellation err); reflexivity. }
  pose proof (f_equal (fun v => v.1.1) Hv2) as Ha. cbn in Ha.
  pose proof (f_equal (fun v => v.1.2) Hv2) as Hre. cbn in Hre.
  pose proof (f_equal (fun v => v.2) Hv2) as Htr. cbn in Htr.
  rewrite hsteps_aborted in Ha. rewrite hsteps_returned in Hre. rewrite hsteps_calls in Htr.
  rewrite Hview_f in Ha, Hre, Htr. cbn in Ha, Hre, Htr.
  split; [exact Hn1 |]. split; [exact Hn2 |].
  split; [symmetry; apply matches_app; assumption |].
  split; [rewrite Hre, settle_all_app; reflexivity |].
  split; [rewrite Ha; destruct ms1, ms2; reflexivity |].
  split; [rewrite Hl2; exact Hlf |].
  rewrite Htr, <- app_assoc. reflexivity.
Qed.

End Run.

(** ** The interceptor, the teardown and the cancellation signal *)

Section Outcomes.

Context {num : Type} `{!JSNumber num}.
Variable env : Env num.
Variable cfg : Config.

Local Abbreviation World := (World num).
Local Abbreviation Event := (Event num).
Local Abbreviation ws := ((setup env cfg initial).2).
Local Abbreviation run := (getCaptchaToken env cfg).

Implicit Types (w : World) (e : Event) (p : Event -> bool) (r : Request).


Lemma In_trace e w :
  In e (List.filter handler_event (trace w)) -> In e (trace w).
Proof. intros H. apply filter_In in H. tauto. Qed.

Lemma count_handler_trace p fuel turns :
  (setup env cfg initial).1 = Return tt ->
  (forall e, p e = true -> handler_event e = true) ->
  count p (trace (run fuel turns))
  = count p (calls (matches env (now ws) (now (loop env cfg fuel true (install_route ws)).2)) false)
    + count p (loop_teardown (num:=num) (loop env cfg fuel true (install_route ws)).1)
    + count p (calls (matches env (now (loop env cfg fuel true (install_route ws)).2)
                               (now (run fuel turns)))
                     (some (matches env (now ws)
                                    (now (loop env cfg fuel true (install_route ws)).2)))).
Proof.
  intros Hs Hp.
  destruct (run_summary env cfg fuel turns Hs) as (_ & _ & _ & _ & _ & _ & Htr).
  rewrite <- (count_filter p) by assumption.
  rewrite Htr, !count_app. lia.
Qed.




(** C2 (amended).  After the set-up, the promise returned by
    [getCaptchaToken] is settled by the route handler alone: it stands as
    the matching requests leave it, pending when there is none, and a
    token comes from a matching request only.  A fatal error of the loop
    rejects the detached promise of the loop and closes the browser; it
    does not reach the returned promise. *)
Theorem returned_settled_by_interceptor (fuel turns : nat) :
  (setup env cfg initial).1 = Return tt ->
  returned (run fuel turns)
    = settle_all (matches env (now ws) (now (run fuel turns))) Pending /\
  (matches env (now ws) (now (run fuel turns)) = [] ->
   returned (run fuel turns) = Pending) /\
  (forall token, returned (run fuel turns) = Fulfilled token ->
     exists r, In r (matches env (now ws) (now (run fuel turns))) /\
               handler_result r = Fulfilled token) /\
  (forall err w', loop env cfg fuel true (install_route ws) = (Some err, w') ->
     is_cancellation err = false ->
     loopPromise (run fuel turns) = Rejected err /\
     In EBrowserClose (trace (run fuel turns))).
Proof.
  intros Hs.
  pose proof (run_summary env cfg fuel turns Hs) as Hsum. cbv zeta in Hsum.
  destruct Hsum as (Hn1 & Hn2 & Hms & Hret & Hab & Hlp & Htr).
  rewrite Hms in Hret.
  split; [exact Hret |]. split; [intros Hnil; rewrite Hret, Hnil; reflexivity |].
  split.
  - intros token. rewrite Hret.
    generalize (matches env (now ws) (now (run fuel turns))). intros ms.
    assert (Hgen : forall q, settle_all ms q = Fulfilled token ->
                     q = Fulfilled token \/
                     exists r, In r ms /\ handler_result r = Fulfilled token).
    { induction ms as [| r ms IH]; intros q Hq; [left; exact Hq |].
      unfold settle_all in *. simpl in Hq.
      destruct (IH _ Hq) as [Hs' | (r' & Hin & Hr')].
      - destruct q; simpl in Hs'; [| left; exact Hs' | discriminate].
        right. exists r. split; [left; reflexivity | exact Hs'].
      - right. exists r'. split; [right; exact Hin | exact Hr']. }
    intros Hq. destruct (Hgen Pending Hq) as [Habs | Hex]; [discriminate | exact Hex].
  - intros err w' Hloop Hfatal. rewrite Hloop in Hlp, Htr. simpl in Hlp, Htr.
    rewrite Hfatal in Hlp, Htr. split; [exact Hlp |].
    apply In_trace. rewrite Htr. apply in_or_app. right. left. reflexivity.
Qed.

(** C3 (amended).  After the set-up, the browser is closed once by every
    run of the route handler and once by the rejection handler of the
    loop, when the loop has ended with a fatal error; nothing else closes
    it. *)
Theorem teardown_count (fuel turns : nat) :
  (setup env cfg initial).1 = Return tt ->
  count is_close (trace (run fuel turns))
  = length (matches env (now ws) (now (run fuel turns)))
    + match loopPromise (run fuel turns) with Rejected _ => 1 | _ => 0 end.
Proof.
  intros Hs.
  pose proof (run_summary env cfg fuel turns Hs) as Hsum. cbv zeta in Hsum.
  destruct Hsum as (_ & _ & Hms & _ & _ & Hlp & _).
  rewrite (count_handler_trace is_close fuel turns Hs)
    by (intros e; destruct e; simpl; congruence).
  rewrite !count_close_calls, <- Hms, length_app, Hlp.
  assert (Htd : count is_close
                  (loop_teardown (num:=num) (loop env cfg fuel true (install_route ws)).1)
                = match loop_outcome (loop env cfg fuel true (install_route ws)).1 with
                  | Rejected _ => 1 | _ => 0 end).
  { unfold loop_teardown, loop_outcome.
    destruct (loop env cfg fuel true (install_route ws)).1 as [err |]; [| reflexivity].
    destruct (is_cancellation err); reflexivity. }
  rewrite Htd. lia.
Qed.

Lemma is_cancellation_spec err :
  is_cancellation err = true <->
  JsString.includes (message err) "been closed" = true \/ message err = "AbortError".
Proof.
  unfold is_cancellation. rewrite orb_true_iff, String.eqb_eq. reflexivity.
Qed.

(** C9.  An error that leaves the loop with a message that contains
    ['been closed'] or is ['AbortError'] fulfils the promise of the loop,
    and nothing more happens; any other error rejects it (and the
    rejection handler closes the browser and rethrows). *)
Theorem loop_error_classified (fuel : nat) (w : World) (err : Err) (w' : World) :
  loopPromise w = Pending ->
  loop env cfg fuel true w = (Some err, w') ->
  (JsString.includes (message err) "been closed" = true \/ message err = "AbortError" ->
   loopPromise (challengeLoop env cfg fuel w) = Fulfilled tt /\
   trace (challengeLoop env cfg fuel w) = trace w') /\
  (JsString.includes (message err) "been closed" = false /\ message err <> "AbortError" ->
   loopPromise (challengeLoop env cfg fuel w) = Rejected err /\
   trace (challengeLoop env cfg fuel w)
     = trace w' ++ [EBrowserClose; EUnhandledRejection err]).
Proof.
  intros Hp Hloop.
  destruct (evolves_view env flow_event w (loop env cfg fuel true w).2
              (flow_not_handler (num:=num)) (evolves_loop env cfg fuel true w))
    as (_ & _ & Hl & _).
  rewrite Hloop in Hl. simpl in Hl. rewrite Hp in Hl.
  unfold challengeLoop. rewrite Hloop.
  destruct (finish_fields (num:=num) err w' Hl) as (_ & _ & _ & _ & Hlp & Htr).
  split.
  - intros Hc. apply is_cancellation_spec in Hc. rewrite Hc in Hlp, Htr.
    rewrite app_nil_r in Htr. split; assumption.
  - intros [Hinc Hmsg].
    assert (Hc : is_cancellation err = false).
    { unfold is_cancellation. rewrite Hinc. simpl.
      apply String.eqb_neq. exact Hmsg. }
    rewrite Hc in Hlp, Htr. split; assumption.
Qed.

(** *** The main flow and the signal *)

Lemma same_flow_set_aborted w : same_flow w (set_aborted w).
Proof. repeat split. Qed.

Lemma same_flow_emit c w w' : same_flow w w' -> same_flow (emit c w) (emit c w').
Proof.
  intros (Hn & Hr & Ho). repeat split; try assumption.
  unfold own in *. cbn [trace emit]. rewrite !List.filter_app, Ho. reflexivity.
Qed.

Lemma same_flow_tick w w' : same_flow w w' -> same_flow (tick env w) (tick env w').
Proof.
  intros (Hn & Hr & Ho). repeat split.
  - rewrite !tick_now, Hn. reflexivity.
  - rewrite !tick_routing. exact Hr.
  - rewrite !(own_tick env). exact Ho.
Qed.

Lemma blind_ret {A} (a : A) : blind (@ret num A a).
Proof. intros w w' H. split; [reflexivity | exact H]. Qed.

Lemma blind_throw {A} err : blind (@throw num A err).
Proof. intros w w' H. split; [reflexivity | exact H]. Qed.

Lemma blind_bind {A B} (m : M num A) (k : A -> M num B) :
  blind m -> (forall a, blind (k a)) -> blind (bind m k).
Proof.
  intros Hm Hk w w' H. unfold agree, bind. destruct (Hm w w' H) as [Ho Hs].
  destruct (m w) as [[a | err] w1], (m w') as [[a' | err'] w1'];
    cbn [fst snd] in *; try discriminate.
  - injection Ho as <-. apply Hk, Hs.
  - injection Ho as <-. split; [reflexivity | exact Hs].
Qed.

Lemma blind_try_catch {A} (m : M num A) (h : Err -> M num A) :
  blind m -> (forall err, blind (h err)) -> blind (try_catch m h).
Proof.
  intros Hm Hh w w' H. unfold agree, try_catch. destruct (Hm w w' H) as [Ho Hs].
  destruct (m w) as [[a | err] w1], (m w') as [[a' | err'] w1'];
    cbn [fst snd] in *; try discriminate.
  - injection Ho as <-. split; [reflexivity | exact Hs].
  - injection Ho as <-. apply Hh, Hs.
Qed.

Lemma blind_detach (m : M num unit) : blind m -> blind (detach m).
Proof.
  intros Hm w w' H. unfold agree, detach. destruct (Hm w w' H) as [Ho Hs].
  destruct (m w) as [[a | err] w1], (m w') as [[a' | err'] w1'];
    cbn [fst snd] in *; try discriminate.
  - split; [reflexivity | exact Hs].
  - injection Ho as <-. split; [reflexivity | apply same_flow_emit, Hs].
Qed.

Lemma same_flow_call c w w' :
  same_flow w w' -> same_flow (tick env (emit c w)) (tick env (emit c w')).
Proof. intros H. apply same_flow_tick, same_flow_emit, H. Qed.

Lemma blind_call c : blind (call env c).
Proof.
  intros w w' H. unfold agree, call. cbn [fst snd].
  split; [destruct H as (-> & _); reflexivity | apply same_flow_call, H].
Qed.

Lemma blind_fire c : blind (@fire num c).
Proof. intros w w' H. split; [reflexivity | apply same_flow_emit, H]. Qed.

Lemma blind_innerText : blind (innerText env).
Proof.
  intros w w' H. unfold agree, innerText. cbn [fst snd].
  split; [destruct H as (-> & _); reflexivity | apply same_flow_call, H].
Qed.

Lemma blind_screenshot : blind (screenshot env).
Proof.
  intros w w' H. unfold agree, screenshot. cbn [fst snd].
  split; [destruct H as (-> & _); reflexivity | apply same_flow_call, H].
Qed.

Lemma blind_readFile : blind (readFile env).
Proof.
  intros w w' H. unfold agree, readFile. cbn [fst snd].
  split; [destruct H as (-> & _); reflexivity | apply same_flow_call, H].
Qed.

Lemma blind_coordinates (payload : Payload) : blind (coordinates env payload).
Proof.
  intros w w' H. unfold agree, coordinates. cbn [fst snd].
  split; [destruct H as (-> & _); reflexivity | apply same_flow_call, H].
Qed.

Lemma blind_boundingBox l : blind (boundingBox env l).
Proof.
  intros w w' H. unfold agree, boundingBox. cbn [fst snd].
  split; [destruct H as (-> & _); reflexivity | apply same_flow_call, H].
Qed.

(** The one place where the signal is read: blind when the answer of the
    wait does not depend on it. *)
Lemma blind_waitForRequests :
  (forall t a a', env_waitForRequests env t a = env_waitForRequests env t a') ->
  blind (waitForRequests env).
Proof.
  intros Hwait w w' H. unfold agree, waitForRequests. cbn [fst snd].
  split; [| apply same_flow_call, H].
  destruct H as (-> & _). apply Hwait.
Qed.

(** Closes a goal [blind m] for a flow [m] built from the combinators. *)
Ltac flow_blind :=
  repeat
    match goal with
    | H : blind ?m |- blind ?m => exact H
    | |- blind (ret _) => apply blind_ret
    | |- blind (throw _) => apply blind_throw
    | |- blind (bind _ _) => apply blind_bind; [| intros ?]
    | |- blind (try_catch _ _) => apply blind_try_catch; [| intros ?]
    | |- blind (detach _) => apply blind_detach
    | |- blind (innerText _) => apply blind_innerText
    | |- blind (screenshot _) => apply blind_screenshot
    | |- blind (readFile _) => apply blind_readFile
    | |- blind (coordinates _ _) => apply blind_coordinates
    | |- blind (boundingBox _ _) => apply blind_boundingBox
    | |- blind (call _ _) => apply blind_call
    | |- blind (fire _) => apply blind_fire
    | |- blind (match ?x with _ => _ end) => destruct x
    end.

Lemma blind_click cursor ghost target position :
  blind (click env cursor ghost target position).
Proof. unfold click. flow_blind. Qed.

Lemma blind_attempt drag : blind (attempt env cfg drag).
Proof. unfold attempt. flow_blind. Qed.

Lemma blind_solve_loop fuel j drag : blind (solve_loop env cfg fuel j drag).
Proof.
  revert j. induction fuel as [| fuel IH]; intros j; simpl.
  - apply blind_ret.
  - pose proof (blind_attempt drag). specialize (IH (j + 1)). flow_blind.
Qed.

Lemma blind_drags box data : blind (drags env box data).
Proof.
  induction data as [| x | x y l IH] using pair_ind; cbn [drags]; flow_blind.
Qed.

Lemma blind_clicks data : blind (clicks env cfg data).
Proof.
  induction data as [| d rest IH]; cbn [clicks].
  - apply blind_ret.
  - apply blind_bind; [apply blind_click | intros _; exact IH].
Qed.

Lemma blind_act wait drag captcha : blind (act env cfg wait drag captcha).
Proof.
  unfold act, defined.
  flow_blind; first [apply blind_drags | apply blind_clicks].
Qed.

Lemma blind_submit : blind (submit env cfg).
Proof.
  unfold submit. apply blind_detach. apply blind_try_catch; [apply blind_click |].
  intros err. destruct (JsString.includes _ _); [| apply blind_throw].
  apply blind_detach, blind_click.
Qed.

Lemma agree_bind {A B} (m : M num A) (k : A -> M num B) w w' :
  agree m w w' -> (forall a, blind (k a)) -> agree (bind m k) w w'.
Proof.
  intros [Ho Hs] Hk. unfold agree, bind in *.
  destruct (m w) as [[a | err] w1], (m w') as [[a' | err'] w1'];
    cbn [fst snd] in *; try discriminate.
  - injection Ho as <-. apply Hk, Hs.
  - injection Ho as <-. split; [reflexivity | exact Hs].
Qed.

Lemma agree_request_solution wait w w' :
  same_flow w w' ->
  (wait = true -> agree (waitForRequests env) w w') ->
  agree (request_solution env cfg wait) w w'.
Proof.
  intros H Hw. unfold request_solution, solve.
  apply agree_bind.
  { destruct wait; [apply Hw; reflexivity | apply blind_ret, H]. }
  intros _. apply blind_bind; [apply blind_innerText |]. intros text.
  apply blind_bind; [apply blind_solve_loop | intros; apply blind_ret].
Qed.

Lemma agree_iteration wait w w' :
  same_flow w w' ->
  (wait = true -> agree (waitForRequests env) w w') ->
  agree (iteration env cfg wait) w w'.
Proof.
  intros H Hw. unfold iteration.
  apply agree_bind; [apply agree_request_solution; assumption |]. intros challenge.
  apply blind_bind; [apply blind_act |]. intros [wait' | wait'].
  - apply blind_ret.
  - apply blind_bind; [apply blind_submit | intros; apply blind_ret].
Qed.

Lemma blind_loop fuel wait w w' :
  blind (waitForRequests env) ->
  same_flow w w' ->
  (loop env cfg fuel wait w).1 = (loop env cfg fuel wait w').1 /\
  same_flow (loop env cfg fuel wait w).2 (loop env cfg fuel wait w').2.
Proof.
  intros Hw. revert wait w w'. induction fuel as [| fuel IH]; intros wait w w' H.
  - split; [reflexivity | exact H].
  - cbn [loop].
    destruct (agree_iteration wait w w' H (fun _ => Hw w w' H)) as [Ho Hs].
    destruct (iteration env cfg wait w) as [[b | err] w1],
             (iteration env cfg wait w') as [[b' | err'] w1'];
      cbn [fst snd] in *; try discriminate.
    + injection Ho as <-. apply IH, Hs.
    + injection Ho as <-. split; [reflexivity | exact Hs].
Qed.

(** C7 (amended).  In every run the signal is raised at most once.  The
    loop consults it at the network-quiescence wait only.  When that wait
    fails with ['AbortError'], the loop ends there, with no further call,
    and its promise is fulfilled.  Everything else is blind to the signal:
    from two worlds that differ in the signal only, the request for a
    solution without wait, the replay and the submit step give the same
    outcome and make the same calls, pointer calls included; a pass of
    the loop does so whenever its wait, if it has one, answers the same
    in both; and so does the whole loop in an environment whose wait
    ignores the signal. *)
Theorem signal_once_checked_at_wait :
  (forall fuel turns, count is_signal_raise (trace (run fuel turns)) <= 1) /\
  (forall fuel w err,
     loopPromise w = Pending ->
     env_waitForRequests env (now w) (aborted (tick env (emit EWaitForRequests w)))
       = Throw err ->
     message err = "AbortError" ->
     loop env cfg (S fuel) true w = (Some err, tick env (emit EWaitForRequests w)) /\
     own (loop env cfg (S fuel) true w).2 = own w ++ [EWaitForRequests] /\
     loopPromise (challengeLoop env cfg (S fuel) w) = Fulfilled tt) /\
  (blind (request_solution env cfg false) /\
   (forall wait drag captcha, blind (act env cfg wait drag captcha)) /\
   blind (submit env cfg)) /\
  (forall wait w w',
     same_flow w w' ->
     (wait = true ->
      env_waitForRequests env (now w) (aborted (tick env (emit EWaitForRequests w)))
      = env_waitForRequests env (now w') (aborted (tick env (emit EWaitForRequests w')))) ->
     (iteration env cfg wait w).1 = (iteration env cfg wait w').1 /\
     own (iteration env cfg wait w).2 = own (iteration env cfg wait w').2) /\
  ((forall t a a', env_waitForRequests env t a = env_waitForRequests env t a') ->
   forall fuel wait w w',
     same_flow w w' ->
     (loop env cfg fuel wait w).1 = (loop env cfg fuel wait w').1 /\
     own (loop env cfg fuel wait w).2 = own (loop env cfg fuel wait w').2).
Proof.
  split; [| split; [| split; [| split]]].
  - intros fuel turns.
    destruct (setup env cfg initial) as [[[] | err] w0] eqn:Hsetup.
    + assert (Hs : (setup env cfg initial).1 = Return tt) by (rewrite Hsetup; reflexivity).
      rewrite (count_handler_trace is_signal_raise fuel turns Hs)
        by (intros e; destruct e as [| | | | | | | | | | | | | | | | | | | | | | | | | [] |];
            simpl; congruence).
      rewrite !count_raise_calls.
      assert (Htd : count is_signal_raise
                      (loop_teardown (num:=num) (loop env cfg fuel true (install_route ws)).1)
                    = 0).
      { unfold loop_teardown.
        destruct (loop env cfg fuel true (install_route ws)).1 as [err |]; [| reflexivity].
        destruct (is_cancellation err); reflexivity. }
      rewrite Htd.
      destruct (some (matches env (now ws)
                        (now (loop env cfg fuel true (install_route ws)).2)));
        destruct (some (matches env (now (loop env cfg fuel true (install_route ws)).2)
                          (now (run fuel turns)))); lia.
    + destruct (setup_view env cfg w0) as (_ & _ & Hv).
      { rewrite Hsetup. reflexivity. }
      unfold getCaptchaToken. rewrite Hsetup. simpl.
      rewrite <- (count_filter is_signal_raise)
        by (intros e; destruct e as [| | | | | | | | | | | | | | | | | | | | | | | | | [] |];
            simpl; congruence).
      pose proof (f_equal (fun v => v.2) Hv) as Htr. simpl in Htr. rewrite Htr.
      unfold count. simpl. lia.
  - intros fuel w err Hp Hwait Hmsg.
    assert (Hit : iteration env cfg true w = (Throw err, tick env (emit EWaitForRequests w))).
    { unfold iteration, request_solution, bind, waitForRequests. rewrite Hwait. reflexivity. }
    assert (Hloop : loop env cfg (S fuel) true w
                    = (Some err, tick env (emit EWaitForRequests w))).
    { cbn [loop]. rewrite Hit. reflexivity. }
    split; [exact Hloop |]. split.
    + rewrite Hloop. simpl. apply own_call. reflexivity.
    + unfold challengeLoop. rewrite Hloop.
      assert (Hl : loopPromise (tick env (emit EWaitForRequests w)) = Pending).
      { rewrite tick_loopPromise. exact Hp. }
      destruct (finish_fields (num:=num) err _ Hl) as (_ & _ & _ & _ & Hlp & _).
      rewrite Hlp.
      replace (is_cancellation err) with true; [reflexivity |].
      symmetry. apply is_cancellation_spec. right. exact Hmsg.
  - split; [| split; [intros; apply blind_act | apply blind_submit]].
    intros w w' H. apply agree_request_solution; [exact H | discriminate].
  - intros wait w w' H Hwait.
    destruct (agree_iteration wait w w' H) as [Ho Hs]; [| split; [exact Ho | apply Hs]].
    intros ->. unfold agree, waitForRequests. cbn [fst snd].
    split; [apply Hwait; reflexivity | apply same_flow_call, H].
  - intros Hwait fuel wait w w' H.
    destruct (blind_loop fuel wait w w' (blind_waitForRequests Hwait) H) as [Ho Hs].
    split; [exact Ho | apply Hs].
Qed.

End Outcomes.

(** ** The submit step *)

Lemma submit_returns {num : Type} `{!JSNumber num} (env : Env num) (cfg : Config)
    (w : World num) :
  (submit env cfg w).1 = Return tt.
Proof.
  unfold submit, detach, try_catch.
  destruct (click env _ _ _ _ w) as [[[] | err] w1]; [reflexivity |].
  destruct (JsString.includes (message err) "viewport"); [| reflexivity].
  destruct (click env _ _ _ _ w1) as [[[] | err'] w2]; reflexivity.
Qed.

(** Scenario D: the click on the submit button fails with a viewport
    error; the Create button is clicked once more (the set-up has clicked
    it once) and the pass goes on. *)
Example submit_viewport_retry :
  JsString.includes (message Error_viewport) "viewport" = true /\
  count is_create_click (trace (getCaptchaToken (env_submit_fails Error_viewport) config0 1 0)) = 2 /\
  count is_submit_click (trace (getCaptchaToken (env_submit_fails Error_viewport) config0 1 0)) = 1 /\
  loopPromise (getCaptchaToken (env_submit_fails Error_viewport) config0 1 0) = Pending.
Proof. vm_compute. repeat split; reflexivity. Qed.

(** C6 (the code at the failing input).  The click on the submit button
    fails with a timeout, an error that does not mention the viewport.
    The handler rethrows it into a promise that nobody awaits: the loop
    goes through a second pass, its promise is still pending and the
    browser has not been closed. *)
Theorem submit_error_not_fatal :
  JsString.includes (message Error_timeout) "viewport" = false /\
  In (EUnhandledRejection Error_timeout)
     (trace (getCaptchaToken (env_submit_fails Error_timeout) config0 2 0)) /\
  count is_submit_click
     (trace (getCaptchaToken (env_submit_fails Error_timeout) config0 2 0)) = 2 /\
  loopPromise (getCaptchaToken (env_submit_fails Error_timeout) config0 2 0) = Pending /\
  count is_close
     (trace (getCaptchaToken (env_submit_fails Error_timeout) config0 2 0)) = 0.
Proof.
  split; [vm_compute; reflexivity |].
  split; [vm_compute; tauto |].
  vm_compute. repeat split; reflexivity.
Qed.

(** ** Concrete runs of the interceptor *)

(** C10 (the code at the failing input).  The matching request has no
    authorization header: reading [.split] of the missing header throws
    inside the handler, after the request was aborted and the browser
    closed, and the returned promise is rejected with that error instead
    of being fulfilled with the token; [onNewToken] is not called. *)
Theorem missing_authorization_rejects :
  headers request_no_authorization !! "authorization" = None /\
  postDataJSON_token request_no_authorization = Return (Some "xyz") /\
  returned (getCaptchaToken env_no_authorization config0 1 0)
    = Rejected TypeError_split /\
  count is_onNewToken (trace (getCaptchaToken env_no_authorization config0 1 0)) = 0 /\
  count is_close (trace (getCaptchaToken env_no_authorization config0 1 0)) = 1.
Proof. vm_compute. repeat split; reflexivity. Qed.




(** C2 (counterexample).  The bounding box of the challenge container is
    missing in a drag pass and no request matches: the promise of the
    loop is rejected with the fatal error, and ten turns of the event loop
    later the returned promise is still pending. *)
Lemma fatal_error_not_propagated :
  loopPromise (getCaptchaToken env_box_missing config0 3 10) = Rejected Error_boundingBox /\
  count is_close (trace (getCaptchaToken env_box_missing config0 3 10)) = 1 /\
  returned (getCaptchaToken env_box_missing config0 3 10) = Pending.
Proof. vm_compute. repeat split; reflexivity. Qed.

(** The same run, through the general statement. *)
Lemma returned_settled_by_interceptor_witness :
  returned (getCaptchaToken env_box_missing config0 3 10) = Pending /\
  loopPromise (getCaptchaToken env_box_missing config0 3 10) = Rejected Error_boundingBox /\
  In EBrowserClose (trace (getCaptchaToken env_box_missing config0 3 10)).
Proof.
  destruct (returned_settled_by_interceptor env_box_missing config0 3 10)
    as (_ & Hnone & _ & Hfatal).
  - vm_compute. reflexivity.
  - split.
    + apply Hnone. vm_compute. reflexivity.
    + apply (Hfatal Error_boundingBox
               (loop env_box_missing config0 3 true
                  (install_route (setup env_box_missing config0 initial).2)).2).
      * vm_compute. reflexivity.
      * vm_compute. reflexivity.
Defined.

(** C3 (counterexample).  First run: the generation request is sent while
    the solver is asked for the third time, and that third attempt fails;
    the handler closes the browser and the rejection handler of the loop
    closes it again.  Second run: the page is closed from outside, the
    loop ends as a cancellation, no request matches, and nothing closes
    the browser. *)
Lemma close_not_exactly_once :
  (returned (getCaptchaToken env_unsolvable config0 3 10) = Fulfilled (Some "xyz") /\
   loopPromise (getCaptchaToken env_unsolvable config0 3 10)
     = Rejected (Error "ERROR_CAPTCHA_UNSOLVABLE") /\
   count is_close (trace (getCaptchaToken env_unsolvable config0 3 10)) = 2) /\
  (loopPromise (getCaptchaToken env_page_closed config0 3 10) = Fulfilled tt /\
   returned (getCaptchaToken env_page_closed config0 3 10) = Pending /\
   count is_close (trace (getCaptchaToken env_page_closed config0 3 10)) = 0).
Proof. vm_compute. repeat split; reflexivity. Qed.

(** One match, the loop still going: one close. *)
Lemma teardown_count_witness :
  count is_close (trace (getCaptchaToken env_E config0 1 0)) = 1.
Proof.
  rewrite (teardown_count env_E config0 1 0).
  - vm_compute. reflexivity.
  - vm_compute. reflexivity.
Defined.

(** C4 (counterexample).  A drag pass, three points from the solver, and
    the bounding box of the container is missing: the pass throws before
    the parity of the solution is looked at; the solution is not
    reported and the loop ends. *)
Lemma odd_solution_box_missing :
  (request_solution env_odd_box_missing config0 true
     (install_route (setup env_odd_box_missing config0 initial).2)).1
    = Return (true, Some three_points) /\
  Nat.odd (length (data three_points)) = true /\
  (iteration env_odd_box_missing config0 true
     (install_route (setup env_odd_box_missing config0 initial).2)).1
    = Throw Error_boundingBox /\
  count is_badReport (trace (getCaptchaToken env_odd_box_missing config0 2 0)) = 0 /\
  loopPromise (getCaptchaToken env_odd_box_missing config0 2 0) = Rejected Error_boundingBox.
Proof. vm_compute. repeat split; reflexivity. Qed.

(** Scenario C: three points for a drag, the bounding box resolved. *)
Lemma odd_drag_solution_rejected_witness :
  exists w',
    iteration env_odd config0 true (install_route (setup env_odd config0 initial).2)
      = (Return false, w') /\
    own w'
      = own (request_solution env_odd config0 true
               (install_route (setup env_odd config0 initial).2)).2
        ++ [EBoundingBox ChallengeContainer; EBadReport "s3"].
Proof.
  destruct (odd_drag_solution_rejected env_odd config0 true
              (install_route (setup env_odd config0 initial).2)
              three_points
              (request_solution env_odd config0 true
                 (install_route (setup env_odd config0 initial).2)).2
              box0)
    as [(w' & Hit & Hown & _) _].
  - vm_compute. reflexivity.
  - vm_compute. reflexivity.
  - vm_compute. reflexivity.
  - exists w'. split; assumption.
Defined.

(** Scenario C, run for two passes: one report per pass, no pointer call,
    one wait only. *)
Example scenario_C :
  count is_badReport (trace (getCaptchaToken env_odd config0 2 0)) = 2 /\
  count (fun e => match e with EMouseMove _ _ _ | EMouseDown | EMouseUp => true | _ => false end)
        (trace (getCaptchaToken env_odd config0 2 0)) = 0 /\
  count is_wait (trace (getCaptchaToken env_odd config0 2 0)) = 1.
Proof. vm_compute. repeat split; reflexivity. Qed.

(** C7 (counterexample).  The generation request is sent while the loop
    is suspended on the solver: the handler raises the signal (position
    16 of the trace), the solver's answer arrives, and the loop goes on to
    click on the challenge (position 18) and on the submit button
    (position 19). *)
Lemma pointer_action_after_signal :
  trace (getCaptchaToken env_E config0 1 0) !! 13
    = Some (ECoordinates {| body := "iVBORw0KGgo="; lang := Some "en";
                            textinstructions := None; imginstructions := None |}) /\
  trace (getCaptchaToken env_E config0 1 0) !! 16 = Some (EControllerAbort true) /\
  trace (getCaptchaToken env_E config0 1 0) !! 18
    = Some (ELocatorClick ChallengeContainer None true
              (Some {| position_x := 120%Z; position_y := 80%Z |})) /\
  trace (getCaptchaToken env_E config0 1 0) !! 19
    = Some (ELocatorClick SubmitButton None true None) /\
  pointer_action (ELocatorClick ChallengeContainer None true
                    (Some {| position_x := 120%Z; position_y := 80%Z |})) = true.
Proof. vm_compute. repeat split; reflexivity. Qed.

(** After the pass in which the signal was raised, the next wait fails
    with ['AbortError'] and the loop ends as a cancellation.  A pass
    without wait and the replay of a solution make the same calls with
    the signal raised as without; so do two passes of the loop on a page
    whose wait ignores the signal. *)
Lemma signal_once_checked_at_wait_witness :
  count is_signal_raise (trace (getCaptchaToken env_E config0 2 5)) <= 1 /\
  loopPromise
    (challengeLoop env_E config0 1
       (loop env_E config0 1 true (install_route (setup env_E config0 initial).2)).2)
    = Fulfilled tt /\
  own (act env_E config0 true false
         (Some {| data := [point "120" "80"]; id := "s1" |})
         (set_aborted (install_route (setup env_E config0 initial).2))).2
  = own (act env_E config0 true false
           (Some {| data := [point "120" "80"]; id := "s1" |})
           (install_route (setup env_E config0 initial).2)).2 /\
  own (iteration env_E config0 false
         (set_aborted (install_route (setup env_E config0 initial).2))).2
  = own (iteration env_E config0 false (install_route (setup env_E config0 initial).2)).2 /\
  own (loop env_deaf_wait config0 2 true
         (set_aborted (install_route (setup env_deaf_wait config0 initial).2))).2
  = own (loop env_deaf_wait config0 2 true
           (install_route (setup env_deaf_wait config0 initial).2)).2.
Proof.
  destruct (signal_once_checked_at_wait env_E config0)
    as (Honce & Hwait & (_ & Hact & _) & Hpass & _).
  destruct (signal_once_checked_at_wait env_deaf_wait config0) as (_ & _ & _ & _ & Hloop).
  split; [apply Honce |].
  split.
  { destruct (Hwait 0
                (loop env_E config0 1 true (install_route (setup env_E config0 initial).2)).2
                (Error "AbortError")) as (_ & _ & Hp).
    - vm_compute. reflexivity.
    - vm_compute. reflexivity.
    - reflexivity.
    - exact Hp. }
  split.
  { destruct (Hact true false (Some {| data := [point "120" "80"]; id := "s1" |})
                (set_aborted (install_route (setup env_E config0 initial).2))
                (install_route (setup env_E config0 initial).2)) as (_ & _ & _ & Ho).
    - split; [reflexivity | split; reflexivity].
    - exact Ho. }
  split.
  { destruct (Hpass false
                (set_aborted (install_route (setup env_E config0 initial).2))
                (install_route (setup env_E config0 initial).2)) as (_ & Ho).
    - split; [reflexivity | split; reflexivity].
    - discriminate.
    - exact Ho. }
  destruct (Hloop (fun _ _ _ => eq_refl) 2 true
              (set_aborted (install_route (setup env_deaf_wait config0 initial).2))
              (install_route (setup env_deaf_wait config0 initial).2)) as (_ & Ho).
  - split; [reflexivity | split; reflexivity].
  - exact Ho.
Defined.

(** One pair of points, replayed from the box at (100, 50). *)
Lemma drag_replay_witness :
  own (act drag_env config0 true true
         (Some {| data := [point "10" "20"; point "210" "120"]; id := "s2" |})
         (request_solution drag_env config0 true
            (install_route (setup drag_env config0 initial).2)).2).2
  = own (request_solution drag_env config0 true
           (install_route (setup drag_env config0 initial).2)).2
    ++ [ EBoundingBox ChallengeContainer;
         EMouseMove 110%Z 70%Z None; EMouseDown; ESleep (11 # 10);
         EMouseMove 310%Z 170%Z (Some 30); EMouseUp ].
Proof.
  destruct (drag_replay drag_env config0 true
              {| data := [point "10" "20"; point "210" "120"]; id := "s2" |}
              box0
              (request_solution drag_env config0 true
                 (install_route (setup drag_env config0 initial).2)).2)
    as (evs & Hown & _ & Hret & Hall).
  - vm_compute. reflexivity.
  - vm_compute. reflexivity.
  - rewrite Hown. f_equal. f_equal.
    destruct (Hret (Submit true)) as [_ ->]; [| vm_compute; reflexivity].
    apply Hall. intros t c. reflexivity.
Defined.

(** The page is closed from outside: the loop ends as a cancellation. *)
Lemma loop_error_classified_witness :
  loopPromise
    (challengeLoop env_page_closed config0 1
       (install_route (setup env_page_closed config0 initial).2))
    = Fulfilled tt.
Proof.
  destruct (loop_error_classified env_page_closed config0 1
              (install_route (setup env_page_closed config0 initial).2)
              Error_closed
              (loop env_page_closed config0 1 true
                 (install_route (setup env_page_closed config0 initial).2)).2)
    as [Hcancel _].
  - vm_compute. reflexivity.
  - vm_compute. reflexivity.
  - apply Hcancel. left. vm_compute. reflexivity.
Defined.

(** The solver fails three times in a row: three calls, and the third
    error leaves the retry loop. *)
Example solve_exhausted :
  (solve env_unsolvable config0 false initial).1 = Throw (Error "ERROR_CAPTCHA_UNSOLVABLE") /\
  count is_coordinates (trace (solve env_unsolvable config0 false initial).2) = 3.
Proof. vm_compute. repeat split; reflexivity. Qed.

(** Scenarios A and B: the classification of the prompt. *)
Example scenario_A :
  JsString.includes (JsString.toLowerCase "Please drag the puzzle piece") "drag" = true.
Proof. vm_compute. reflexivity. Qed.

Example scenario_B :
  JsString.includes (JsString.toLowerCase "Select all images with X") "drag" = false.
Proof. vm_compute. reflexivity. Qed.

(** * Further properties of the module *)

(** ** The credential read from the authorization header *)

Section Credential.

Local Open Scope string_scope.

Lemma prefix_append (sep t : string) : String.prefix sep (sep ++ t) = true.
Proof.
  induction sep as [| a sep IH]; [destruct t; reflexivity |].
  change (String a sep ++ t)%string with (String a (sep ++ t)). simpl.
  destruct (ascii_dec a a) as [_ | Hne]; [exact IH | contradiction].
Qed.

Lemma append_empty_r (s : string) : (s ++ "")%string = s.
Proof.
  induction s as [| a s IH]; [reflexivity |].
  change (String a s ++ "")%string with (String a (s ++ "")). congruence.
Qed.

Lemma append_assoc (s t u : string) : ((s ++ t) ++ u)%string = (s ++ (t ++ u))%string.
Proof.
  induction s as [| a s IH]; [reflexivity |].
  change (String a (s ++ t) ++ u = String a (s ++ (t ++ u)))%string.
  change (String a ((s ++ t) ++ u) = String a (s ++ (t ++ u)))%string. congruence.
Qed.

Lemma split_scan_skip (sep u cur t : string) :
  JsString.split_scan sep (String.length u) cur (u ++ t) = JsString.split_scan sep 0 cur t.
Proof. induction u as [| a u IH]; [reflexivity | exact IH]. Qed.

Lemma includes_cons (a : ascii) (s sub : string) :
  JsString.includes (String a s) sub = false ->
  String.prefix sub (String a s) = false /\ JsString.includes s sub = false.
Proof.
  unfold JsString.includes; fold JsString.includes. intros H.
  apply orb_false_iff in H. exact H.
Qed.

Lemma split_scan_none (sep cur s : string) :
  sep <> "" -> JsString.includes s sep = false ->
  JsString.split_scan sep 0 cur s = [(cur ++ s)%string].
Proof.
  intros Hsep. revert cur. induction s as [| a s IH]; intros cur Hnone.
  - simpl. rewrite append_empty_r. reflexivity.
  - apply includes_cons in Hnone as [Hp Hs].
    cbn [JsString.split_scan]. rewrite Hp, (IH _ Hs), append_assoc. reflexivity.
Qed.

Lemma split_none (s sep : string) :
  sep <> "" -> JsString.includes s sep = false -> JsString.split s sep = [s].
Proof.
  intros Hsep Hnone. unfold JsString.split.
  destruct sep as [| a sep']; [contradiction |].
  apply (split_scan_none (String a sep') "" s Hsep Hnone).
Qed.

Lemma split_after_separator (sep t : string) :
  sep <> "" ->
  JsString.split (sep ++ t) sep = "" :: JsString.split t sep.
Proof.
  intros Hsep. unfold JsString.split.
  destruct sep as [| a sep']; [contradiction |].
  change (String a sep' ++ t)%string with (String a (sep' ++ t)).
  cbn [JsString.split_scan].
  change (String a (sep' ++ t)) with (String a sep' ++ t)%string.
  rewrite prefix_append.
  replace (String.length (String a sep') - 1) with (String.length sep') by (simpl; lia).
  rewrite split_scan_skip. reflexivity.
Qed.

Lemma pop_bearer (token : string) :
  JsString.includes token "Bearer " = false ->
  JsString.pop (JsString.split ("Bearer " ++ token) "Bearer ") = Some token.
Proof.
  intros Hnone. rewrite split_after_separator by discriminate.
  rewrite split_none by (discriminate || assumption). reflexivity.
Qed.

Lemma pop_other_scheme (authorization : string) :
  JsString.includes authorization "Bearer " = false ->
  JsString.pop (JsString.split authorization "Bearer ") = Some authorization.
Proof.
  intros Hnone. rewrite split_none by (discriminate || assumption). reflexivity.
Qed.

End Credential.

Section Handler.

Context {num : Type} `{!JSNumber num}.

Local Abbreviation World := (World num).
Local Abbreviation Event := (Event num).

Implicit Types (w : World) (r : Request).

(** X1.  A header [Bearer <token>] whose token has no further
    ['Bearer '] in it: the handler aborts the request, closes the
    browser, aborts the controller and forwards exactly [<token>] to
    [onNewToken]; an empty token is not forwarded. *)
Theorem bearer_credential_forwarded (r : Request) (w : World) (token : string) :
  headers r !! "authorization" = Some ("Bearer " ++ token)%string ->
  JsString.includes token "Bearer " = false ->
  trace (handler r w)
  = trace w ++ [ERouteAbort; EBrowserClose; EControllerAbort (negb (aborted w))]
            ++ match token with
               | EmptyString => []
               | String _ _ => [EOnNewToken token]
               end.
Proof.
  intros Hh Hnone. rewrite handler_spec. cbn [trace].
  unfold handler_calls, forwarded. rewrite Hh, (pop_bearer token Hnone).
  destruct token; reflexivity.
Qed.

(** X2.  The scheme of the header is not looked at: a non-empty header
    without ['Bearer '] in it is forwarded to [onNewToken] whole. *)
Theorem unprefixed_header_forwarded_whole (r : Request) (w : World) (authorization : string) :
  headers r !! "authorization" = Some authorization ->
  JsString.includes authorization "Bearer " = false ->
  authorization <> EmptyString ->
  trace (handler r w)
  = trace w ++ [ERouteAbort; EBrowserClose; EControllerAbort (negb (aborted w));
                EOnNewToken authorization].
Proof.
  intros Hh Hnone Hne. rewrite handler_spec. cbn [trace].
  unfold handler_calls, forwarded. rewrite Hh, (pop_other_scheme authorization Hnone).
  destruct authorization; [contradiction | reflexivity].
Qed.

Lemma handler_result_settled r : handler_result r <> Pending.
Proof.
  unfold handler_result.
  destruct (headers r !! "authorization"); [| discriminate].
  destruct (postDataJSON_token r); discriminate.
Qed.

Lemma returned_handler_settled r w : returned (handler r w) <> Pending.
Proof.
  rewrite handler_spec. cbn [returned].
  pose proof (handler_result_settled r) as Hr.
  destruct (returned w); simpl; [exact Hr | discriminate | discriminate].
Qed.

(** X3.  Whatever the request, even one on which it throws, a run of the
    handler aborts the request, asks the browser to close, leaves the
    signal raised and settles the returned promise; at most one call of
    [onNewToken] follows. *)
Theorem handler_always_tears_down (r : Request) (w : World) :
  returned (handler r w) <> Pending /\
  aborted (handler r w) = true /\
  loopPromise (handler r w) = loopPromise w /\
  exists rest,
    trace (handler r w)
    = trace w ++ ERouteAbort :: EBrowserClose :: EControllerAbort (negb (aborted w)) :: rest /\
    forallb is_onNewToken rest = true /\ length rest <= 1.
Proof.
  split; [apply returned_handler_settled |].
  rewrite handler_spec. cbn [aborted loopPromise trace].
  split; [reflexivity |]. split; [reflexivity |].
  exists (forwarded r). split; [reflexivity |].
  unfold forwarded. destruct (headers r !! "authorization") as [auth |]; [| split; auto].
  destruct (JsString.pop (JsString.split auth "Bearer ")) as [tok |]; [| split; auto].
  destruct (JsString.truthy (Some tok)); split; auto.
Qed.

(** X4.  A second matching request changes neither the result nor the
    signal; it does close the browser once more. *)
Theorem handler_first_match_wins (r1 r2 : Request) (w : World) :
  returned (handler r2 (handler r1 w)) = returned (handler r1 w) /\
  count is_signal_raise (trace (handler r2 (handler r1 w)))
    = count is_signal_raise (trace (handler r1 w)) /\
  count is_close (trace (handler r2 (handler r1 w)))
    = count is_close (trace (handler r1 w)) + 1.
Proof.
  pose proof (returned_handler_settled r1 w) as Hs.
  rewrite (handler_spec r2 (handler r1 w)). cbn [returned trace].
  replace (aborted (handler r1 w)) with true by (rewrite handler_spec; reflexivity).
  split; [destruct (returned (handler r1 w)); simpl; congruence |].
  rewrite !count_app.
  pose proof (count_raise_calls (num:=num) [r2] true) as Hraise.
  pose proof (count_close_calls (num:=num) [r2] true) as Hclose.
  cbn [calls] in Hraise, Hclose. rewrite app_nil_r in Hraise, Hclose.
  rewrite Hraise, Hclose. simpl. split; lia.
Qed.

(** X5.  With an authorization header, the first run of the handler
    fulfils the returned promise with the [token] field of the JSON body,
    with [undefined] when the body has no such field; a request without a
    body rejects it with the [TypeError] of reading [token] of [null], and
    a body that does not parse with the error of [postDataJSON], whose
    message ends with the text of the body. *)
Theorem handler_token_field (r : Request) (w : World) (authorization : string) :
  returned w = Pending ->
  headers r !! "authorization" = Some authorization ->
  returned (handler r w)
  = match postData r with
    | JObject fields => Fulfilled (fields !! "token")
    | NoPostData => Rejected TypeError_token
    | NotJSON raw =>
        Rejected (Error ("POST data is not a valid JSON object: " ++ raw)%string)
    end.
Proof.
  intros Hp Hh. rewrite handler_spec. cbn [returned]. rewrite Hp. simpl.
  unfold handler_result, postDataJSON_token. rewrite Hh.
  destruct (postData r); reflexivity.
Qed.

End Handler.

(** ** The passes of the loop *)

Section Passes.

Context {num : Type} `{!JSNumber num}.
Variable env : Env num.
Variable cfg : Config.

Local Abbreviation World := (World num).
Local Abbreviation Event := (Event num).

Implicit Types (w : World) (e : Event).

Lemma now_call c w : now (tick env (emit c w)) = S (now w).
Proof. rewrite tick_now. reflexivity. Qed.

(** X6.  When the screenshot is taken (and, for a drag, the instruction
    image is read), the solver is asked once, with the screenshot as
    body and the locale as language; the text and image instructions are
    sent for a drag and for a drag only, and the answer of the solver is
    the result of the attempt. *)
Theorem solver_asked_with_payload (drag : bool) (w : World) (shot img : string) :
  env_screenshot env (now w) = Return shot ->
  (drag = true -> env_readFile env (S (now w)) = Return img) ->
  (attempt env cfg drag w).1
  = env_coordinates env (if drag then S (S (now w)) else S (now w))
      (solver_payload cfg shot (if drag then Some img else None)) /\
  own (attempt env cfg drag w).2
  = own w ++ EScreenshot :: (if drag then [EReadFile] else [])
          ++ [ECoordinates (solver_payload cfg shot (if drag then Some img else None))].
Proof.
  intros Hshot Himg.
  unfold attempt, bind, screenshot, readFile, coordinates, ret. rewrite Hshot.
  destruct drag.
  - rewrite now_call, (Himg eq_refl). cbn [fst snd]. rewrite !now_call. split; [reflexivity |].
    rewrite !(own_call env) by reflexivity. rewrite <- !app_assoc. reflexivity.
  - cbn [fst snd]. rewrite now_call. split; [reflexivity |].
    rewrite !(own_call env) by reflexivity. rewrite <- !app_assoc. reflexivity.
Qed.

Lemma attempt_no_screenshot drag w err :
  env_screenshot env (now w) = Throw err ->
  attempt env cfg drag w = (Throw err, tick env (emit EScreenshot w)).
Proof.
  intros Hshot. unfold attempt, bind, screenshot. rewrite Hshot. reflexivity.
Qed.

(** X7.  The three attempts are spent by failing screenshots as well: if
    the screenshot fails each time, the retry loop throws the third
    screenshot error after three screenshots, and the solver has not been
    asked once. *)
Theorem capture_failure_spends_attempts (drag : bool) (w : World) (e1 e2 e3 : Err) :
  env_screenshot env (now w) = Throw e1 ->
  env_screenshot env (S (now w)) = Throw e2 ->
  env_screenshot env (S (S (now w))) = Throw e3 ->
  (solve env cfg drag w).1 = Throw e3 /\
  own (solve env cfg drag w).2 = own w ++ [EScreenshot; EScreenshot; EScreenshot].
Proof.
  intros H1 H2 H3.
  assert (Heq : solve env cfg drag w
                = (Throw e3,
                   tick env (emit EScreenshot
                     (tick env (emit EScreenshot (tick env (emit EScreenshot w))))))).
  { unfold solve. cbn [solve_loop Nat.ltb Nat.leb Nat.eqb Nat.add negb].
    unfold try_catch, bind, throw.
    rewrite (attempt_no_screenshot drag w e1 H1).
    rewrite (attempt_no_screenshot drag _ e2) by (rewrite now_call; exact H2).
    rewrite (attempt_no_screenshot drag _ e3) by (rewrite !now_call; exact H3).
    reflexivity. }
  rewrite Heq. cbn [fst snd]. split; [reflexivity |].
  rewrite !(own_call env) by reflexivity. rewrite <- !app_assoc. reflexivity.
Qed.

Lemma solve_some drag w c :
  (solve env cfg drag w).1 = Return c -> exists captcha, c = Some captcha.
Proof.
  unfold solve. cbn [solve_loop Nat.ltb Nat.leb Nat.eqb Nat.add negb].
  unfold try_catch, bind, ret, throw.
  destruct (attempt env cfg drag w) as [[c1 | e1] w1]; cbn [fst].
  { intros [= <-]. eauto. }
  destruct (attempt env cfg drag w1) as [[c2 | e2] w2]; cbn [fst].
  { intros [= <-]. eauto. }
  destruct (attempt env cfg drag w2) as [[c3 | e3] w3]; cbn [fst].
  { intros [= <-]. eauto. }
  discriminate.
Qed.

Lemma request_solution_some wait w drag c w1 :
  request_solution env cfg wait w = (Return (drag, c), w1) ->
  exists captcha, c = Some captcha.
Proof.
  unfold request_solution, bind, ret.
  destruct ((if wait then waitForRequests env else fun w => (Return tt, w)) w)
    as [[[] | e0] w0]; [| discriminate].
  destruct (innerText env w0) as [[text | e1] w2]; [| discriminate].
  pose proof (solve_some (JsString.includes (JsString.toLowerCase text) "drag") w2) as Hs.
  destruct (solve env cfg _ w2) as [[c' | e2] w3]; [| discriminate].
  intros [= _ <- _]. apply Hs. reflexivity.
Qed.

Lemma submit_bind {A} (k : unit -> M num A) w :
  bind (submit env cfg) k w = k tt (submit env cfg w).2.
Proof.
  unfold bind. pose proof (submit_returns env cfg w) as Hs.
  destruct (submit env cfg w) as [[[] | err] w1]; [reflexivity | discriminate].
Qed.

(** X8.  The value of [wait] after a pass that comes to its end: a drag
    pass sets it when the solution was replayed (an even number of
    points) and clears it when the solution was reported; a selection pass
    leaves it as it was, so that after a reported drag solution the
    selection passes that follow make no network-quiescence wait either.
    A pass never goes on with an undefined solution. *)
Theorem wait_after_pass (wait : bool) (w : World) (drag : bool)
    (c : option Captcha) (w1 : World) (b : bool) (w' : World) :
  request_solution env cfg wait w = (Return (drag, c), w1) ->
  iteration env cfg wait w = (Return b, w') ->
  exists captcha,
    c = Some captcha /\
    b = if drag then Nat.even (length (data captcha)) else wait.
Proof.
  intros Hreq Hit.
  destruct (request_solution_some wait w drag c w1 Hreq) as [captcha ->].
  exists captcha. split; [reflexivity |].
  unfold iteration, bind at 1 in Hit. rewrite Hreq in Hit. cbn [fst snd] in Hit.
  unfold bind at 1 in Hit.
  destruct drag.
  - unfold act, bind at 1, boundingBox, defined, ret, fire in Hit.
    destruct (env_boundingBox env (now w1) ChallengeContainer) as [[box |] | err];
      [| discriminate | discriminate].
    unfold bind at 1 in Hit. rewrite <- Nat.negb_odd.
    destruct (Nat.odd (length (data captcha))).
    + unfold bind in Hit. injection Hit as <- _. reflexivity.
    + unfold bind at 1 in Hit.
      destruct (drags env box (data captcha) _) as [[[] | err] w2]; [| discriminate].
      rewrite submit_bind in Hit. injection Hit as <- _. reflexivity.
  - unfold act, defined, bind at 1, ret in Hit. unfold bind at 1 in Hit.
    destruct (clicks env cfg (data captcha) w1) as [[[] | err] w2]; [| discriminate].
    rewrite submit_bind in Hit. injection Hit as <- _. reflexivity.
Qed.

Lemma click_direct l position w :
  ghostCursorEnabled cfg = false ->
  click env (ghostCursorEnabled cfg) (ghostCursorEnabled cfg) (TLocator l) position w
  = call env (ELocatorClick l None true position) w.
Proof. intros Hg. unfold click. rewrite Hg. reflexivity. Qed.

Lemma clicks_own data w :
  ghostCursorEnabled cfg = false ->
  exists evs,
    own (clicks env cfg data w).2 = own w ++ evs /\
    evs `prefix_of` map selection_click data /\
    ((clicks env cfg data w).1 = Return tt -> evs = map selection_click data) /\
    ((forall t c, env_action env t c = Return tt) -> (clicks env cfg data w).1 = Return tt).
Proof.
  intros Hg. revert w. induction data as [| d rest IH]; intros w.
  - exists []. rewrite app_nil_r. repeat split; auto.
  - cbn [clicks map]. unfold bind. rewrite (click_direct _ _ w Hg). unfold call.
    fold (selection_click d).
    set (w1 := tick env (emit (selection_click d) w)).
    assert (H1 : own w1 = own w ++ [selection_click d]) by (apply own_call; reflexivity).
    destruct (env_action env (now w) (selection_click d)) as [[] | err] eqn:E1; cbn [fst snd].
    + destruct (IH w1) as (evs & Ho & Hpre & Hret & Hall).
      exists (selection_click d :: evs). split; [| split; [| split]].
      * rewrite Ho, H1, <- app_assoc. reflexivity.
      * apply prefix_cons, Hpre.
      * intros Hr. rewrite (Hret Hr). reflexivity.
      * exact Hall.
    + exists [selection_click d]. split; [exact H1 |]. split; [| split].
      * apply prefix_cons, prefix_nil.
      * discriminate.
      * intros Hall. rewrite Hall in E1. discriminate.
Qed.

(** X9.  Without the humanized cursor, a selection solution is replayed as
    one forced click on the challenge container per point, in the order
    of the solver's answer, at the offsets of the point; no bounding box
    is asked for; a replay cut short by a failing click is a prefix of
    that; [wait] is handed on unchanged. *)
Theorem selection_replay (wait : bool) (captcha : Captcha) (w : World) :
  ghostCursorEnabled cfg = false ->
  exists evs,
    own (act env cfg wait false (Some captcha) w).2 = own w ++ evs /\
    evs `prefix_of` map selection_click (data captcha) /\
    (forall next, (act env cfg wait false (Some captcha) w).1 = Return next ->
                  next = Submit wait /\ evs = map selection_click (data captcha)) /\
    ((forall t c, env_action env t c = Return tt) ->
     (act env cfg wait false (Some captcha) w).1 = Return (Submit wait)).
Proof.
  intros Hg. unfold act, defined, bind, ret.
  destruct (clicks_own (data captcha) w Hg) as (evs & Ho & Hpre & Hret & Hall).
  exists evs.
  destruct (clicks env cfg (data captcha) w) as [[[] | err] w2]; cbn [fst snd] in *.
  - split; [exact Ho |]. split; [exact Hpre |]. split; [| reflexivity].
    intros next [= <-]. auto.
  - split; [exact Ho |]. split; [exact Hpre |]. split; [discriminate |].
    intros Hok. discriminate (Hall Hok).
Qed.

(** X10.  With the humanized cursor, a selection pass whose challenge
    container has no bounding box any more throws a [TypeError] (reading
    [x] of [null]) at the first point, before any pointer call; the
    message is not one of a cancellation, so the error is fatal for the
    loop. *)
Theorem humanized_selection_box_missing
    (wait : bool) (w : World) (captcha : Captcha) (w1 : World) (d : Point) (rest : list Point) :
  ghostCursorEnabled cfg = true ->
  request_solution env cfg wait w = (Return (false, Some captcha), w1) ->
  data captcha = d :: rest ->
  env_boundingBox env (now w1) ChallengeContainer = Return None ->
  iteration env cfg wait w
    = (Throw TypeError_x, tick env (emit (EBoundingBox ChallengeContainer) w1)) /\
  own (iteration env cfg wait w).2 = own w1 ++ [EBoundingBox ChallengeContainer] /\
  is_cancellation TypeError_x = false /\
  (forall fuel, (loop env cfg (S fuel) wait w).1 = Some TypeError_x).
Proof.
  intros Hg Hreq Hdata Hbox.
  assert (Hit : iteration env cfg wait w
                = (Throw TypeError_x, tick env (emit (EBoundingBox ChallengeContainer) w1))).
  { unfold iteration, bind at 1. rewrite Hreq. cbn [fst snd].
    unfold bind at 1, act, defined, bind at 1, ret. rewrite Hdata. cbn [clicks].
    unfold bind at 1, click. rewrite Hg. cbn [andb].
    unfold bind, boundingBox, ret, throw. rewrite Hbox. reflexivity. }
  split; [exact Hit |]. split; [| split].
  - rewrite Hit. cbn [snd]. apply own_call. reflexivity.
  - vm_compute. reflexivity.
  - intros fuel. cbn [loop]. rewrite Hit. reflexivity.
Qed.


End Passes.

(** ** The set-up of the session *)

Section Setup.

Context {num : Type} `{!JSNumber num}.
Variable env : Env num.
Variable cfg : Config.

Local Abbreviation World := (World num).
Local Abbreviation Event := (Event num).
Local Abbreviation ws := ((setup env cfg initial).2).

Implicit Types (w : World) (e : Event).

Lemma call_bind {A} c (k : unit -> M num A) w :
  bind (call env c) k w
  = match env_action env (now w) c with
    | Return u => k u (tick env (emit c w))
    | Throw err => (Throw err, tick env (emit c w))
    end.
Proof. reflexivity. Qed.

Ltac fail_branch := cbn [fst snd]; split; [discriminate | intuition discriminate].

(** X12.  Without the humanized cursor the set-up goes through exactly
    when eight of its ten calls are fulfilled: the launch, the new
    context, the cookies, the new page, the navigation, the response of
    the project API, the click on the text area and the typing.  The click
    on the 'Close' label (clock 6) may fail, its error is swallowed; the
    first click on the Create button (clock 9) may fail, it is not
    awaited. *)
Theorem setup_outcome :
  ghostCursorEnabled cfg = false ->
  ((setup env cfg initial).1 = Return tt <->
   env_action env 0 ELaunch = Return tt /\
   env_action env 1 (ENewContext (userAgent cfg) (BROWSER_LOCALE cfg)) = Return tt /\
   env_action env 2 (EAddCookies (browserCookies cfg)) = Return tt /\
   env_action env 3 ENewPage = Return tt /\
   env_action env 4 EGoto = Return tt /\
   env_action env 5 EWaitForResponse = Return tt /\
   env_action env 7 (ELocatorClick Textarea None true None) = Return tt /\
   env_action env 8 (EPressSequentially "Lorem ipsum") = Return tt).
Proof.
  intros Hg. unfold setup, launchBrowser, click. rewrite Hg. cbn [andb].
  unfold bind, call, try_catch, detach, ret.
  change (suno_cookie "__session" (currentToken cfg)
          :: map (fun kv => suno_cookie kv.1 (default "undefined" kv.2)) (cookies cfg))
    with (browserCookies cfg).
  rewrite ?now_call. change (now initial) with 0.
  destruct (env_action env 0 ELaunch) as [[] | e0]; [| fail_branch].
  destruct (env_action env 1 _) as [[] | e1]; [| fail_branch].
  destruct (env_action env 2 _) as [[] | e2]; [| fail_branch].
  cbn [fst snd]. rewrite ?now_call. change (now initial) with 0.
  destruct (env_action env 3 ENewPage) as [[] | e3]; [| fail_branch].
  destruct (env_action env 4 EGoto) as [[] | e4]; [| fail_branch].
  destruct (env_action env 5 EWaitForResponse) as [[] | e5]; [| fail_branch].
  destruct (env_action env 6 _) as [[] | e6]; cbn [fst snd]; rewrite ?now_call;
    change (now initial) with 0.
  - destruct (env_action env 7 _) as [[] | e7]; [| fail_branch].
    destruct (env_action env 8 _) as [[] | e8]; [| fail_branch].
    destruct (env_action env 9 _) as [[] | e9]; cbn [fst]; tauto.
  - destruct (env_action env 7 _) as [[] | e7]; [| fail_branch].
    destruct (env_action env 8 _) as [[] | e8]; [| fail_branch].
    destruct (env_action env 9 _) as [[] | e9]; cbn [fst]; tauto.
Qed.

(** X11.  When the browser is launched and the context created, the
    cookies handed to the context are the first-party session cookie
    [__session] with the current token, followed by one cookie per entry
    of the cookie record, in its order; a value that is undefined is sent
    as the text "undefined"; every cookie is for the domain [.suno.com],
    path [/], same-site [Lax]. *)
Theorem session_cookies (w : World) :
  env_action env (now w) ELaunch = Return tt ->
  env_action env (S (now w)) (ENewContext (userAgent cfg) (BROWSER_LOCALE cfg)) = Return tt ->
  own (launchBrowser env cfg w).2
    = own w ++ [ELaunch; ENewContext (userAgent cfg) (BROWSER_LOCALE cfg);
                EAddCookies (browserCookies cfg)] /\
  length (browserCookies cfg) = S (length (cookies cfg)) /\
  browserCookies cfg !! 0 = Some (suno_cookie "__session" (currentToken cfg)) /\
  (forall i key value,
     cookies cfg !! i = Some (key, value) ->
     browserCookies cfg !! S i = Some (suno_cookie key (default "undefined" value))) /\
  Forall (fun c => cookie_domain c = ".suno.com" /\ cookie_path c = "/" /\
                   cookie_sameSite c = "Lax")
         (browserCookies cfg).
Proof.
  intros Hlaunch Hcontext. split; [| split; [| split; [| split]]].
  - unfold launchBrowser. rewrite !call_bind, Hlaunch, now_call, Hcontext.
    unfold call. cbn [snd]. rewrite !(own_call env) by reflexivity.
    rewrite <- !app_assoc. reflexivity.
  - unfold browserCookies. cbn [length]. rewrite length_map. reflexivity.
  - reflexivity.
  - intros i key value Hi. unfold browserCookies. cbn [lookup list_lookup].
    change (map (fun kv : string * option string =>
                   suno_cookie kv.1 (default "undefined" kv.2)) (cookies cfg) !! i
            = Some (suno_cookie key (default "undefined" value))).
    rewrite list_lookup_fmap_Some_2 with (x := (key, value)); [reflexivity | exact Hi].
  - unfold browserCookies. constructor; [repeat split |].
    apply Forall_forall. intros c Hc. apply list_elem_of_fmap in Hc as (kv & -> & _).
    repeat split.
Qed.

(** X13.  When an awaited call of the set-up fails, [getCaptchaToken]
    rejects with that error; the route handler is not installed, the loop
    is not started (nothing is added to the calls of the set-up) and the
    browser is not closed. *)
Theorem setup_failure_rejects (err : Err) (fuel turns : nat) :
  (setup env cfg initial).1 = Throw err ->
  returned (getCaptchaToken env cfg fuel turns) = Rejected err /\
  trace (getCaptchaToken env cfg fuel turns) = trace ws /\
  routing (getCaptchaToken env cfg fuel turns) = false /\
  loopPromise (getCaptchaToken env cfg fuel turns) = Pending /\
  count is_close (trace (getCaptchaToken env cfg fuel turns)) = 0.
Proof.
  intros Hs.
  destruct (setup_view env cfg ws eq_refl) as (Hr & Hl & Hv).
  pose proof (f_equal (fun v => v.1.2) Hv) as Hret. cbn in Hret.
  pose proof (f_equal (fun v => v.2) Hv) as Htr. cbn in Htr.
  unfold getCaptchaToken.
  destruct (setup env cfg initial) as [[[] | err'] w0]; cbn [fst snd] in *; [discriminate |].
  injection Hs as ->. unfold settle_returned; cbn [returned trace routing loopPromise].
  rewrite Hret. repeat split; try assumption.
  rewrite <- (count_filter is_close) by (intros e; destruct e; simpl; congruence).
  rewrite Htr. reflexivity.
Qed.

Lemma count_routeAbort_calls rs was : count is_routeAbort (@calls num rs was) = length rs.
Proof.
  revert was. induction rs as [| r rs IH]; intros was; [reflexivity |]. cbn [calls].
  rewrite count_app, IH. unfold handler_calls. rewrite count_app.
  assert (Hf : count is_routeAbort (@forwarded num r) = 0).
  { unfold forwarded. destruct (headers r !! "authorization") as [auth |]; [| reflexivity].
    destruct (JsString.pop (JsString.split auth "Bearer ")) as [tok |]; [| reflexivity].
    destruct (JsString.truthy (Some tok)); reflexivity. }
  rewrite Hf. reflexivity.
Qed.

(** X15.  In a run whose set-up went through, every request that matches
    the route while the run is observed is aborted, none is let through;
    [onNewToken] is called once for each of them that carries a non-empty
    credential; the signal is raised exactly when there is one. *)
Theorem interceptor_accounting (fuel turns : nat) :
  (setup env cfg initial).1 = Return tt ->
  count is_routeAbort (trace (getCaptchaToken env cfg fuel turns))
    = length (matches env (now ws) (now (getCaptchaToken env cfg fuel turns))) /\
  count is_onNewToken (trace (getCaptchaToken env cfg fuel turns))
    = length (flat_map (@forwarded num)
                (matches env (now ws) (now (getCaptchaToken env cfg fuel turns)))) /\
  aborted (getCaptchaToken env cfg fuel turns)
    = some (matches env (now ws) (now (getCaptchaToken env cfg fuel turns))) /\
  count is_signal_raise (trace (getCaptchaToken env cfg fuel turns))
    = if some (matches env (now ws) (now (getCaptchaToken env cfg fuel turns)))
      then 1 else 0.
Proof.
  intros Hs.
  pose proof (run_summary env cfg fuel turns Hs) as Hsum. cbv zeta in Hsum.
  destruct Hsum as (_ & _ & Hms & _ & Hab & _ & _).
  rewrite <- Hms.
  assert (Htd : forall p, p (@EBrowserClose num) = false ->
            count p (loop_teardown (num:=num)
                       (loop env cfg fuel true (install_route ws)).1) = 0).
  { intros p Hp. unfold loop_teardown.
    destruct (loop env cfg fuel true (install_route ws)).1 as [err |]; [| reflexivity].
    destruct (is_cancellation err); [reflexivity |]. unfold count. simpl. rewrite Hp.
    reflexivity. }
  split; [| split; [| split]].
  - rewrite (count_handler_trace env cfg is_routeAbort fuel turns Hs)
      by (intros e; destruct e; simpl; congruence).
    rewrite !count_routeAbort_calls, Htd, length_app by reflexivity. lia.
  - rewrite (count_handler_trace env cfg is_onNewToken fuel turns Hs)
      by (intros e; destruct e; simpl; congruence).
    rewrite !count_token_calls, Htd, flat_map_app, length_app by reflexivity. lia.
  - rewrite Hab. reflexivity.
  - rewrite (count_handler_trace env cfg is_signal_raise fuel turns Hs)
      by (intros e; destruct e as [| | | | | | | | | | | | | | | | | | | | | | | | | [] |];
          simpl; congruence).
    rewrite !count_raise_calls, Htd by reflexivity.
    destruct (matches env (now ws) (now (loop env cfg fuel true (install_route ws)).2));
      destruct (matches env (now (loop env cfg fuel true (install_route ws)).2)
                  (now (getCaptchaToken env cfg fuel turns))); reflexivity.
Qed.

End Setup.

(** ** The browser engine *)

Lemma lower_ascii_idempotent (c : ascii) :
  JsString.lower_ascii (JsString.lower_ascii c) = JsString.lower_ascii c.
Proof.
  destruct c as [[] [] [] [] [] [] [] []]; vm_compute; reflexivity.
Qed.

Lemma toLowerCase_idempotent (s : string) :
  JsString.toLowerCase (JsString.toLowerCase s) = JsString.toLowerCase s.
Proof.
  induction s as [| c s IH]; [reflexivity |].
  unfold JsString.toLowerCase; fold JsString.toLowerCase.
  rewrite lower_ascii_idempotent, IH. reflexivity.
Qed.

(** X16.  The engine is chosen without regard to the case of [BROWSER]:
    firefox exactly when the name is "firefox" once put in lower case,
    chromium otherwise, also when the variable is unset or names webkit. *)
Theorem browser_choice :
  (forall name, getBrowserType (Some (JsString.toLowerCase name)) = getBrowserType (Some name)) /\
  (forall BROWSER,
     getBrowserType BROWSER = firefox <->
     exists name, BROWSER = Some name /\ JsString.toLowerCase name = "firefox") /\
  getBrowserType None = chromium /\
  getBrowserType (Some "webkit") = chromium /\
  getBrowserType (Some "FireFox") = firefox.
Proof.
  split; [| split; [| repeat split]].
  - intros name. unfold getBrowserType. cbn [option_map].
    rewrite toLowerCase_idempotent. reflexivity.
  - intros [name |]; unfold getBrowserType; cbn [option_map].
    + destruct (String.eqb_spec (JsString.toLowerCase name) "firefox") as [Heq | Hne].
      * split; [intros _; exists name; auto | reflexivity].
      * split; [discriminate |]. intros (name' & [= <-] & Heq). contradiction.
    + split; [discriminate |]. intros (name' & Habs & _). discriminate.
Qed.

(** ** Concrete runs for the further properties *)

(** Scenario E: the credential of the request is forwarded. *)
Lemma bearer_credential_forwarded_witness :
  trace (handler request_E (@initial Z))
  = [ERouteAbort; EBrowserClose; EControllerAbort true; EOnNewToken "abc123"].
Proof.
  apply (bearer_credential_forwarded request_E (@initial Z) "abc123").
  - vm_compute. reflexivity.
  - vm_compute. reflexivity.
Defined.

(** A header with the Basic scheme is forwarded as it is. *)
Lemma unprefixed_header_forwarded_whole_witness :
  trace (handler request_basic (@initial Z))
  = [ERouteAbort; EBrowserClose; EControllerAbort true; EOnNewToken "Basic dXNlcjpwYXNz"].
Proof.
  apply (unprefixed_header_forwarded_whole request_basic (@initial Z) "Basic dXNlcjpwYXNz").
  - vm_compute. reflexivity.
  - vm_compute. reflexivity.
  - discriminate.
Defined.

(** A JSON body without a token field: the promise is fulfilled with
    [undefined]; a body of plain text: it is rejected with the error of
    [postDataJSON]. *)
Lemma handler_token_field_witness :
  returned (handler request_basic (@initial Z)) = Fulfilled None /\
  returned (handler request_plain_text (@initial Z))
  = Rejected (Error "POST data is not a valid JSON object: hello").
Proof.
  split.
  - rewrite (handler_token_field request_basic (@initial Z) "Basic dXNlcjpwYXNz").
    + vm_compute. reflexivity.
    + reflexivity.
    + vm_compute. reflexivity.
  - rewrite (handler_token_field request_plain_text (@initial Z) "Bearer abc123").
    + vm_compute. reflexivity.
    + reflexivity.
    + vm_compute. reflexivity.
Defined.

(** The first attempt of a drag pass. *)
Lemma solver_asked_with_payload_witness :
  own (attempt drag_env config0 true (@initial Z)).2
  = [EScreenshot; EReadFile;
     ECoordinates
       {| body := "iVBORw0KGgo="; lang := Some "en";
          textinstructions :=
            Some "CLICK on the shapes at their edge or center as shown above—please be precise!";
          imginstructions := Some "/9j/4AAQSkZJRg==" |}].
Proof.
  destruct (solver_asked_with_payload drag_env config0 true (@initial Z)
              "iVBORw0KGgo=" "/9j/4AAQSkZJRg==") as [_ Hown].
  - reflexivity.
  - intros _. reflexivity.
  - exact Hown.
Defined.

Lemma capture_failure_spends_attempts_witness :
  (solve env_no_screenshot config0 false (@initial Z)).1
    = Throw (Error "locator.screenshot: Timeout 5000ms exceeded.") /\
  own (solve env_no_screenshot config0 false (@initial Z)).2
    = [EScreenshot; EScreenshot; EScreenshot].
Proof.
  apply (capture_failure_spends_attempts env_no_screenshot config0 false (@initial Z)
           (Error "locator.screenshot: Timeout 5000ms exceeded.")
           (Error "locator.screenshot: Timeout 5000ms exceeded.")
           (Error "locator.screenshot: Timeout 5000ms exceeded."));
    reflexivity.
Defined.

(** Scenario C: after the reported solution, [wait] is cleared. *)
Lemma wait_after_pass_witness :
  exists captcha,
    Some three_points = Some captcha /\
    false = Nat.even (length (data captcha)).
Proof.
  apply (wait_after_pass env_odd config0 true
           (install_route (setup env_odd config0 initial).2)
           true (Some three_points)
           (request_solution env_odd config0 true
              (install_route (setup env_odd config0 initial).2)).2
           false
           (iteration env_odd config0 true
              (install_route (setup env_odd config0 initial).2)).2).
  - vm_compute. reflexivity.
  - vm_compute. reflexivity.
Defined.

Lemma selection_replay_witness :
  exists evs,
    own (act selection_env config0 true false
           (Some {| data := [point "120" "80"; point "30" "40"]; id := "s1" |})
           (@initial Z)).2
    = evs /\
    evs `prefix_of`
      [ELocatorClick ChallengeContainer None true
         (Some {| position_x := 120%Z; position_y := 80%Z |});
       ELocatorClick ChallengeContainer None true
         (Some {| position_x := 30%Z; position_y := 40%Z |})].
Proof.
  destruct (selection_replay selection_env config0 true
              {| data := [point "120" "80"; point "30" "40"]; id := "s1" |}
              (@initial Z)) as (evs & Hown & Hpre & _).
  - reflexivity.
  - exists evs. split; [exact Hown | exact Hpre].
Defined.

Lemma humanized_selection_box_missing_witness :
  (loop env_no_box config_humanized 1 true
     (install_route (setup env_no_box config_humanized initial).2)).1
  = Some TypeError_x.
Proof.
  destruct (humanized_selection_box_missing env_no_box config_humanized true
              (install_route (setup env_no_box config_humanized initial).2)
              {| data := [point "120" "80"]; id := "s1" |}
              (request_solution env_no_box config_humanized true
                 (install_route (setup env_no_box config_humanized initial).2)).2
              (point "120" "80") [])
    as (_ & _ & _ & Hloop).
  - reflexivity.
  - vm_compute. reflexivity.
  - reflexivity.
  - vm_compute. reflexivity.
  - apply Hloop.
Defined.

(** A cookie record with an undefined value. *)
Lemma session_cookies_witness :
  browserCookies config_humanized !! 2
  = Some (suno_cookie "ajs_anonymous_id" "undefined").
Proof.
  destruct (session_cookies selection_env config_humanized (@initial Z))
    as (_ & _ & _ & Hentry & _).
  - reflexivity.
  - reflexivity.
  - apply (Hentry 1 "ajs_anonymous_id" None). reflexivity.
Defined.

(** Neither the missing 'Close' label nor the failing first click on the
    Create button stops the set-up. *)
Lemma setup_outcome_witness :
  (setup env_flaky_clicks config0 initial).1 = Return tt.
Proof.
  apply (setup_outcome env_flaky_clicks config0); [reflexivity |].
  repeat split; reflexivity.
Defined.

(** The navigation fails: the browser was launched and is not closed. *)
Lemma setup_failure_rejects_witness :
  returned (getCaptchaToken env_goto_fails config0 3 10) = Rejected Error_navigation /\
  count is_close (trace (getCaptchaToken env_goto_fails config0 3 10)) = 0.
Proof.
  destruct (setup_failure_rejects env_goto_fails config0 Error_navigation 3 10)
    as (Hret & _ & _ & _ & Hclose).
  - vm_compute. reflexivity.
  - split; [exact Hret | exact Hclose].
Defined.

Lemma interceptor_accounting_witness :
  count is_routeAbort (trace (getCaptchaToken env_E config0 1 0)) = 1 /\
  count is_onNewToken (trace (getCaptchaToken env_E config0 1 0)) = 1.
Proof.
  destruct (interceptor_accounting env_E config0 1 0) as (Habort & Htoken & _).
  - vm_compute. reflexivity.
  - rewrite Habort, Htoken. vm_compute. split; reflexivity.
Defined.

